(** * The pipeline runner of chainlink: a shallow embedding

    The development follows [core/services/pipeline/runner.go]: the
    run-level executor [ExecuteRun] with its bounded retry loop, the
    synthesis of a panicked run, the per-run executor [executeRun] with
    its workers, the per-task executor [executeTaskRun] with its timeout
    precedence, and [ExecuteAndInsertFinishedRun].

    Go values are modelled as the code has them: [time.Time] and
    [time.Duration] as integers, [interface{}] as a tagged union with a
    nil, [error] as a tagged union, pointers as locations of an explicit
    heap, channels by their identity.  Effects (reading the clock,
    allocating, calling a collaborator) are threaded through an explicit
    [World] by a small state monad.  Calls that leave the runner (a task's
    [Run], the start of a goroutine, a sleep, the ORM) are recorded in the
    world's trace, which is how theorems observe them.  Logging and
    Prometheus observations are left out: no result depends on them.

    Two more pieces of the repository follow the runner: the reaper loop
    of the service ([runReaperLoop]) and the validation of webhook job
    specs ([core/services/webhook/validate.go]). *)

From stdpp Require Import base numbers list strings gmap sorting pretty.

Local Open Scope Z_scope.

(** ** Go base types *)

(** [time.Time] in nanoseconds; the zero value [time.Time{}] is [0]. *)
Definition Time := Z.
Definition zeroTime : Time := 0.
(** [time.Duration] (and [models.Interval]): int64 nanoseconds. *)
Definition Duration := Z.
Definition Millisecond : Duration := 1000000.
Definition Second : Duration := 1000 * Millisecond.
Definition Hour : Duration := 3600 * Second.

(** A channel is known by its identity; [chStop] is one of them. *)
Definition Chan := nat.
(** A heap location, the target of a Go pointer. *)
Definition Loc := nat.

(** [interface{}]. *)
#[warnings="-register-all"]
Inductive any :=
| anyNil
| anyInt (z : Z)
| anyString (s : string)
| anyBytes (b : list Z)
| anySlice (l : list any).

(** The value [recover()] hands to a deferred function of a panicking
    goroutine (never nil: [recover()] returns nil when the goroutine is
    not panicking, which is [None] in [recover_] below). *)
Inductive PanicValue :=
| PanicString (s : string)
| PanicRuntimeError (s : string).

(** [error]; a nil error is [None : option error]. *)
Inductive error :=
| ErrRunPanicked                              (* errors.New("pipeline run panicked") *)
| panicError (v : PanicValue)                 (* panicError{v} *)
| errors_Wrapf (cause : error) (format : string) (arg : Z)
| errors_New (msg : string).

(** What calling a Go function does to its goroutine. *)
Inductive Outcome (A : Type) :=
| Returns (a : A)
| Panics (v : PanicValue).
Arguments Returns {A} a.
Arguments Panics {A} v.

(** [context.Context]: its deadline, if any, and the channels whose
    closing cancels it. *)
Record Context := {
  ctx_deadline : option Time;
  ctx_done : list Chan;
}.

Definition context_Background : Context :=
  {| ctx_deadline := None; ctx_done := [] |}.

(** Is the context cancelled at time [t], when the channels [closed] have
    been closed? *)
Definition ctx_cancelled (c : Context) (closed : list Chan) (t : Time) : bool :=
  match ctx_deadline c with
  | Some d => bool_decide (d ≤ t)
  | None => false
  end || existsb (λ ch, bool_decide (ch ∈ closed)) (ctx_done c).

(** ** The pipeline data model *)

Record Result := {
  Value : any;
  Error : option error;
}.

Record JSONSerializable := {
  Val : any;
  Null : bool;
}.
Definition zeroJSONSerializable : JSONSerializable :=
  {| Val := anyNil; Null := false |}.

Definition Vars := list (string * any).
Definition Config := nat.
Definition DB := nat.

(** [SafeTx{txdb, txMu}]: the transactional handle and the location of the
    mutex that guards it. *)
Record SafeTx := {
  tx : DB;
  txMu : Loc;
}.

Inductive TaskType :=
| TaskTypeHTTP
| TaskTypeBridge
| TaskTypeOther (tag : string).

Definition TaskType_eqb (a b : TaskType) : bool :=
  match a, b with
  | TaskTypeHTTP, TaskTypeHTTP => true
  | TaskTypeBridge, TaskTypeBridge => true
  | TaskTypeOther s, TaskTypeOther s' => bool_decide (s = s')
  | _, _ => false
  end.

(** An outgoing edge of a task: the successor and the index of the edge
    among the successor's declared inputs. *)
Record Edge := {
  e_to : string;
  e_index : Z;
}.

(** A task instance of a parsed DAG.  [Run] is the external contract; it
    reads the fields the runner injects ([config], [safeTx]). *)
Record Task := {
  DotID : string;
  Type_ : TaskType;
  TaskTimeout : Duration * bool;
  Outputs : list Edge;
  config : option Config;
  safeTx : option SafeTx;
  Run_ : option Config → option SafeTx →
         Context → Vars → JSONSerializable → list Result → Outcome Result;
}.

Definition Task_Run (t : Task) (ctx : Context) (vars : Vars)
    (meta : JSONSerializable) (inputs : list Result) : Outcome Result :=
  Run_ t (config t) (safeTx t) ctx vars meta inputs.

Record Pipeline := {
  Tasks : list Task;
}.

Record Spec := {
  ID : Z;
  JobID : Z;
  JobName : string;
  DotDagSource : string;
  MaxTaskDuration : Duration;
}.

Record TaskRunResult := {
  trr_Task : Task;
  trr_Result : Result;
  trr_CreatedAt : Time;
  trr_FinishedAt : Time;
}.

Definition TaskRunResults := list TaskRunResult.

Record Run := {
  run_ID : Z;
  run_PipelineSpecID : Z;
  run_CreatedAt : Time;
  run_FinishedAt : option Loc;
  run_Outputs : JSONSerializable;
  run_Errors : list (option error);
}.

(** [var run Run]. *)
Definition zeroRun : Run :=
  {| run_ID := 0; run_PipelineSpecID := 0; run_CreatedAt := zeroTime;
     run_FinishedAt := None; run_Outputs := zeroJSONSerializable;
     run_Errors := [] |}.

Record FinalResult := {
  fr_Outputs : list any;
  fr_Errors : list (option error);
}.

(** [var finalResult FinalResult]. *)
Definition zeroFinalResult : FinalResult :=
  {| fr_Outputs := []; fr_Errors := [] |}.

(** ** The world *)

Inductive Obj :=
| ObjTime (t : Time)
| ObjMutex.

(** The calls that leave the runner, in the order they happen. *)
Inductive Event :=
| EvInject (dotID : string)                   (* a task instance is primed *)
| EvScheduler (ntasks : nat)                  (* newScheduler; go scheduler.Run() *)
| EvSpawn (dotID : string)                    (* go func(taskRun) *)
| EvTaskRun (dotID : string) (ctx : Context) (inputs : list Result)
                                              (* task.Run(ctx, vars, meta, inputs) *)
| EvSleep (attempt : nat)                     (* time.Sleep(b.Duration()) *)
| EvInsert (run : Run) (ntrrs : nat).         (* orm.InsertFinishedRun *)

Record World := {
  w_clock : nat → Time;        (* the value of the i-th reading of the clock *)
  w_reads : nat;               (* the readings made so far *)
  w_heap : list Obj;
  w_trace : list Event;
}.

(** The state monad over the world. *)
Definition M (A : Type) : Type := World → A * World.

Global Instance M_ret : MRet M := λ A a w, (a, w).
Global Instance M_bind : MBind M := λ A B f m w, let '(a, w') := m w in f a w'.

(** [time.Now()]. *)
Definition time_Now : M Time := λ w,
  (w_clock w (w_reads w),
   {| w_clock := w_clock w; w_reads := S (w_reads w);
      w_heap := w_heap w; w_trace := w_trace w |}).

(** [&x]: the object escapes to the heap. *)
Definition alloc (o : Obj) : M Loc := λ w,
  (length (w_heap w),
   {| w_clock := w_clock w; w_reads := w_reads w;
      w_heap := w_heap w ++ [o]; w_trace := w_trace w |}).

Definition deref (w : World) (p : Loc) : option Obj := w_heap w !! p.

Definition deref_Time (w : World) (p : option Loc) : option Time :=
  match p with
  | Some l => match deref w l with Some (ObjTime t) => Some t | _ => None end
  | None => None
  end.

Definition emit (e : Event) : M unit := λ w,
  (tt,
   {| w_clock := w_clock w; w_reads := w_reads w;
      w_heap := w_heap w; w_trace := w_trace w ++ [e] |}).

(** ** [sort.Slice]

    The library function is known by its contract: the result is a
    permutation of the slice, and it is ordered when [less] is a strict
    weak order.  It is not stable. *)

Record StrictWeakOrder {A} (less : A → A → bool) : Prop := {
  swo_asym x y : less x y = true → less y x = false;
  swo_negtrans x y z : less x y = false → less y z = false → less x z = false;
}.

Definition ordered_by {A} (less : A → A → bool) : relation A :=
  λ x y, less y x = false.

Class SliceSort := {
  sort_Slice : ∀ {A}, (A → A → bool) → list A → list A;
  sort_Slice_perm : ∀ A (less : A → A → bool) l, sort_Slice less l ≡ₚ l;
  sort_Slice_sorted : ∀ A (less : A → A → bool) l,
    StrictWeakOrder less → StronglySorted (ordered_by less) (sort_Slice less l);
}.

(** Insertion sort, the algorithm Go's [sort] runs on short slices. *)
Fixpoint insert_by {A} (less : A → A → bool) (x : A) (l : list A) : list A :=
  match l with
  | [] => [x]
  | y :: l' => if less x y then x :: y :: l' else y :: insert_by less x l'
  end.

Fixpoint insertionSort {A} (less : A → A → bool) (l : list A) : list A :=
  match l with
  | [] => []
  | x :: l' => insert_by less x (insertionSort less l')
  end.

(** ** The scheduler's descriptors *)

Record input := {
  result : Result;
  index : Z;                  (* int32; only compared *)
}.

Record memoryTaskRun := {
  task : Task;
  inputs : list input;
  vars : Vars;
}.

(** What a goroutine did before it ended: its sends on the scheduler's
    result channel, and the panic that killed it, if one did. *)
Record Goroutine := {
  posted : list TaskRunResult;
  escaped : option PanicValue;
}.

(** [recover()] in a deferred function. *)
Definition recover_ {A} (o : Outcome A) : option PanicValue :=
  match o with
  | Panics v => Some v
  | Returns _ => None
  end.

(** ** Collaborators of the runner *)

Record ORM := {
  orm_DB : DB;
  orm_InsertFinishedRun : DB → Run → TaskRunResults → bool → M (Z * option error);
}.

Record runner := {
  orm : ORM;
  runner_config : Config;
  chStop : Chan;
  chDone : Chan;
}.

(** Modelled from the spec: [utils.CombinedContext] is not among the
    sources.  The spec (4.3) has the executor compose the chosen timeout
    with the runner's stop signal: the context expires [timeout] after
    its creation and is cancelled when the stop channel is closed.  It is
    built on no other context. *)
Definition CombinedContext (stop : Chan) (timeout : Duration) : M Context :=
  now ← time_Now;
  mret {| ctx_deadline := Some (now + timeout); ctx_done := [stop] |}.

(** Modelled from the spec: [TaskRunResults.FinalResult] and the
    conversions [OutputsDB] and [ErrorsDB] are not among the sources.  The
    spec (3) derives the final result from the results of the terminal
    tasks (no successors), outputs and errors aligned.  The spec (5)
    enumerates them as the DAG enumerates its terminal tasks; a function
    of the results alone has no DAG, and the entries are kept here in the
    order of the results.  Nothing below depends on that order. *)
Definition IsTerminal (trr : TaskRunResult) : bool :=
  match Outputs (trr_Task trr) with
  | [] => true
  | _ :: _ => false
  end.

Definition FinalResult_ (trrs : TaskRunResults) : FinalResult :=
  let terminal := List.filter IsTerminal trrs in
  {| fr_Outputs := (λ trr, Value (trr_Result trr)) <$> terminal;
     fr_Errors := (λ trr, Error (trr_Result trr)) <$> terminal |}.

Definition OutputsDB (f : FinalResult) : JSONSerializable :=
  {| Val := anySlice (fr_Outputs f); Null := false |}.

Definition ErrorsDB (f : FinalResult) : list (option error) := fr_Errors f.

(** [for _, x := range xs { ... }] with effects. *)
Fixpoint forM {A B} (f : A → M B) (xs : list A) : M (list B) :=
  match xs with
  | [] => mret []
  | x :: xs' => b ← f x; bs ← forM f xs'; mret (b :: bs)
  end.

(** ** The scheduler

    Modelled from the spec: the scheduler ([newScheduler], [Run], its
    channels and [results]) is not among the sources.  The spec (4.1)
    keeps a pending-predecessor count per task, seeds the ready set with
    the tasks of in-degree zero, which get the seed input at index 0, and
    on each result appends [{result, edge index}] to every successor's
    input buffer and decrements its count, adding the successor to the
    ready set when the count reaches zero.  The spec leaves the content
    of the variable bag open; it is empty here.  [results] is a Go map;
    it is kept in the order the results arrived. *)
Record scheduler := {
  s_pipeline : Pipeline;
  s_pending : gmap string nat;
  s_inputs : gmap string (list input);
  s_vars : Vars;
  s_ready : list Task;
  results : list TaskRunResult;
}.

Definition edges_into (p : Pipeline) (id : string) : list Edge :=
  List.filter (λ e, bool_decide (e_to e = id)) (Tasks p ≫= Outputs).

Definition in_degree (p : Pipeline) (t : Task) : nat :=
  length (edges_into p (DotID t)).

Definition is_root (p : Pipeline) (t : Task) : bool :=
  bool_decide (in_degree p t = 0%nat).

Definition newScheduler (p : Pipeline) (pipelineInput : any) : scheduler :=
  let seed := {| result := {| Value := pipelineInput; Error := None |}; index := 0 |} in
  {| s_pipeline := p;
     s_pending := list_to_map ((λ t, (DotID t, in_degree p t)) <$> Tasks p);
     s_inputs := list_to_map ((λ t, (DotID t, [seed])) <$> List.filter (is_root p) (Tasks p));
     s_vars := [];
     s_ready := List.filter (is_root p) (Tasks p);
     results := [] |}.

Definition find_task (p : Pipeline) (id : string) : option Task :=
  List.find (λ t, bool_decide (DotID t = id)) (Tasks p).

(** One edge out of a finished task. *)
Definition deliver (r : Result) (s : scheduler) (e : Edge) : scheduler :=
  let buffer := default [] (s_inputs s !! e_to e) in
  let inputs' := <[e_to e := buffer ++ [{| result := r; index := e_index e |}]]> (s_inputs s) in
  match s_pending s !! e_to e with
  | Some (S n) =>
      {| s_pipeline := s_pipeline s;
         s_pending := <[e_to e := n]> (s_pending s);
         s_inputs := inputs';
         s_vars := s_vars s;
         s_ready :=
           match n, find_task (s_pipeline s) (e_to e) with
           | O, Some t => s_ready s ++ [t]
           | _, _ => s_ready s
           end;
         results := results s |}
  | _ =>
      {| s_pipeline := s_pipeline s; s_pending := s_pending s;
         s_inputs := inputs'; s_vars := s_vars s;
         s_ready := s_ready s; results := results s |}
  end.

(** A result arrives on the result channel. *)
Definition absorb (s : scheduler) (trr : TaskRunResult) : scheduler :=
  let s' := foldl (deliver (trr_Result trr)) s (Outputs (trr_Task trr)) in
  {| s_pipeline := s_pipeline s'; s_pending := s_pending s';
     s_inputs := s_inputs s'; s_vars := s_vars s';
     s_ready := s_ready s'; results := results s' ++ [trr] |}.

(** The descriptor the scheduler emits for a ready task. *)
Definition newMemoryTaskRun (s : scheduler) (t : Task) : memoryTaskRun :=
  {| task := t; inputs := default [] (s_inputs s !! DotID t); vars := s_vars s |}.

Definition pop_ready (s : scheduler) (ready' : list Task) : scheduler :=
  {| s_pipeline := s_pipeline s; s_pending := s_pending s;
     s_inputs := s_inputs s; s_vars := s_vars s;
     s_ready := ready'; results := results s |}.

(** ** The runner *)

Section Runner.

(** [sort.Slice], by its contract. *)
Context {sorter : SliceSort}.

(** [Parse(source) -> (DAG, error)], the external DOT parser. *)
Variable Parse : string → Pipeline + error.

(** Modelled from the spec: [Spec.Pipeline] is not among the sources; the
    DAG of a spec is the one parsed from its [DotDagSource]. *)
Definition Spec_Pipeline (spec : Spec) : Pipeline + error :=
  Parse (DotDagSource spec).

(** Returns the results sorted by index. *)
Definition inputsSorted (m : memoryTaskRun) : list Result :=
  let inputs := sort_Slice (λ i j, bool_decide (index i < index j)) (inputs m) in
  result <$> inputs.

(** The context [executeTaskRun] hands to the task.  Order of precedence
    for the task timeout: the task's own, the job level one, the passed in
    context. *)
Definition taskContext (r : runner) (ctx : Context) (spec : Spec)
    (taskRun : memoryTaskRun) : M Context :=
  let '(taskTimeout, isSet) := TaskTimeout (task taskRun) in
  if isSet then CombinedContext (chStop r) taskTimeout
  else if bool_decide (MaxTaskDuration spec ≠ 0) then
    CombinedContext (chStop r) (MaxTaskDuration spec)
  else mret ctx.

Definition executeTaskRun (r : runner) (ctx : Context) (spec : Spec)
    (taskRun : memoryTaskRun) (meta : JSONSerializable) : M (Outcome TaskRunResult) :=
  start ← time_Now;
  ctx ← taskContext r ctx spec taskRun;
  let args := inputsSorted taskRun in
  emit (EvTaskRun (DotID (task taskRun)) ctx args);;
  match Task_Run (task taskRun) ctx (vars taskRun) meta args with
  | Panics v => mret (Panics v)
  | Returns result =>
      finished ← time_Now;
      mret (Returns {| trr_Task := task taskRun;
                       trr_Result := result;
                       trr_CreatedAt := start;
                       trr_FinishedAt := finished |})
  end.

(** The goroutine [executeRun] starts for a runnable descriptor.  Its body
    sends the result of [executeTaskRun] on the result channel; its
    deferred function calls [recover()] and, when the body panicked, sends
    a result made from the panic. *)
Definition worker (r : runner) (ctx : Context) (spec : Spec)
    (meta : JSONSerializable) (taskRun : memoryTaskRun) : M Goroutine :=
  body ← executeTaskRun r ctx spec taskRun meta;
  let sent := match body with
              | Returns result => [result]
              | Panics _ => []
              end in
  match recover_ body with
  | Some err =>
      finished ← time_Now;
      mret {| posted := sent ++ [ {| trr_Task := task taskRun;
                                     trr_Result := {| Value := anyNil;
                                                      Error := Some (panicError err) |};
                                     trr_CreatedAt := zeroTime;   (* TODO: CreatedAt *)
                                     trr_FinishedAt := finished |} ];
              escaped := None |}
  | None => mret {| posted := sent; escaped := None |}
  end.

(** The dispatch loop [for taskRun := range scheduler.taskCh], with the
    scheduler on the other end of the two channels.  Goroutines are run
    one after the other, each to its end before the next descriptor is
    received: one of the interleavings of the program.  Every turn takes
    one task from the ready set; the channel is closed when the set is
    empty.  A task is emitted at most once, so as many turns as the DAG
    has tasks are enough (see [dispatch_drains]). *)
Fixpoint dispatch (turns : nat) (work : memoryTaskRun → M Goroutine)
    (s : scheduler) : M scheduler :=
  match turns with
  | O => mret s
  | S turns' =>
      match s_ready s with
      | [] => mret s
      | t :: ready' =>
          let taskRun := newMemoryTaskRun s t in
          emit (EvSpawn (DotID t));;
          g ← work taskRun;
          dispatch turns' work (foldl absorb (pop_ready s ready') (posted g))
      end
  end.

(** [initialize certain task params]. *)
Definition inject (r : runner) (txdb : DB) (mu : Loc) (t : Task) : M Task :=
  if TaskType_eqb (Type_ t) TaskTypeHTTP then
    emit (EvInject (DotID t));;
    mret {| DotID := DotID t; Type_ := Type_ t; TaskTimeout := TaskTimeout t;
            Outputs := Outputs t; config := Some (runner_config r);
            safeTx := safeTx t; Run_ := Run_ t |}
  else if TaskType_eqb (Type_ t) TaskTypeBridge then
    emit (EvInject (DotID t));;
    mret {| DotID := DotID t; Type_ := Type_ t; TaskTimeout := TaskTimeout t;
            Outputs := Outputs t; config := Some (runner_config r);
            safeTx := Some {| tx := txdb; txMu := mu |}; Run_ := Run_ t |}
  else mret t.

Definition executeRun (r : runner) (ctx : Context) (txdb : DB) (spec : Spec)
    (pipelineInput : any) (meta : JSONSerializable)
    : M (Run * TaskRunResults * bool * option error) :=
  startRun ← time_Now;
  let run := {| run_ID := 0; run_PipelineSpecID := ID spec;
                run_CreatedAt := startRun; run_FinishedAt := None;
                run_Outputs := zeroJSONSerializable; run_Errors := [] |} in
  match Parse (DotDagSource spec) with
  | inr err => mret (run, [], false, Some err)
  | inl pipeline =>
      mu ← alloc ObjMutex;
      tasks ← forM (inject r txdb mu) (Tasks pipeline);
      let pipeline := {| Tasks := tasks |} in
      let scheduler := newScheduler pipeline pipelineInput in
      emit (EvScheduler (length (Tasks pipeline)));;
      scheduler ← dispatch (length (Tasks pipeline)) (worker r ctx spec meta) scheduler;
      finishRun ← time_Now;
      let taskRunResults := results scheduler in
      let finalResult := FinalResult_ taskRunResults in
      p ← alloc (ObjTime finishRun);
      mret ({| run_ID := 0; run_PipelineSpecID := ID spec;
               run_CreatedAt := startRun; run_FinishedAt := Some p;
               run_Outputs := OutputsDB finalResult;
               run_Errors := ErrorsDB finalResult |},
            taskRunResults, false, None)
  end.

(** Generate a errored run from the spec. *)
Definition panickedRunResults (spec : Spec)
    : M (Run * list TaskRunResult * option error) :=
  created ← time_Now;
  p ← alloc (ObjTime created);                  (* &run.CreatedAt *)
  let run := {| run_ID := 0; run_PipelineSpecID := ID spec;
                run_CreatedAt := created; run_FinishedAt := Some p;
                run_Outputs := zeroJSONSerializable; run_Errors := [] |} in
  match Spec_Pipeline spec with
  | inr err => mret (run, [], Some err)
  | inl p =>
      f ← time_Now;
      panickedTrrs ← forM (λ task,
          finished ← time_Now;
          mret {| trr_Task := task;
                  trr_CreatedAt := f;
                  trr_Result := {| Value := anyNil; Error := Some ErrRunPanicked |};
                  trr_FinishedAt := finished |}) (Tasks p);
      mret ({| run_ID := run_ID run; run_PipelineSpecID := run_PipelineSpecID run;
               run_CreatedAt := run_CreatedAt run; run_FinishedAt := run_FinishedAt run;
               run_Outputs := OutputsDB (FinalResult_ panickedTrrs);
               run_Errors := ErrorsDB (FinalResult_ panickedTrrs) |},
            panickedTrrs, None)
  end.

Definition numPanicRetries : nat := 5.

(** The loop of [ExecuteRun], [for i = 0; i < numPanicRetries; i++], over
    the call it repeats.  It yields the final [i] and the values last
    assigned to [run], [trrs] and [err]. *)
Fixpoint retryLoop (attempt : M (Run * TaskRunResults * bool * option error))
    (remaining i : nat) (last : Run * TaskRunResults * option error)
    : M (nat * (Run * TaskRunResults * option error)) :=
  match remaining with
  | O => mret (i, last)
  | S remaining' =>
      '(run, trrs, retry, err) ← attempt;
      if retry : bool then
        emit (EvSleep i);;
        retryLoop attempt remaining' (S i) (run, trrs, err)
      else mret (i, (run, trrs, err))
  end.

Definition ExecuteRun_with (attempt : M (Run * TaskRunResults * bool * option error))
    (spec : Spec) : M (Run * TaskRunResults * option error) :=
  '(i, last) ← retryLoop attempt numPanicRetries 0 (zeroRun, [], None);
  if bool_decide (i = numPanicRetries) then panickedRunResults spec
  else mret last.

Definition ExecuteRun (r : runner) (ctx : Context) (spec : Spec)
    (pipelineInput : any) (meta : JSONSerializable)
    : M (Run * TaskRunResults * option error) :=
  ExecuteRun_with (executeRun r ctx (orm_DB (orm r)) spec pipelineInput meta) spec.

(** Executes a run in memory then inserts the finished run/task run
    records, returning the final result. *)
Definition ExecuteAndInsertFinishedRun (r : runner) (ctx : Context) (spec : Spec)
    (pipelineInput : any) (meta : JSONSerializable) (saveSuccessfulTaskRuns : bool)
    : M (Z * FinalResult * option error) :=
  '(run, trrs, err) ← ExecuteRun r ctx spec pipelineInput meta;
  match err with
  | Some err =>
      mret (run_ID run, zeroFinalResult,
            Some (errors_Wrapf err "error executing run for spec ID %v" (ID spec)))
  | None =>
      let finalResult := FinalResult_ trrs in
      emit (EvInsert run (length trrs));;
      '(runID, err) ← orm_InsertFinishedRun (orm r) (orm_DB (orm r)) run trrs
                        saveSuccessfulTaskRuns;
      match err with
      | Some err =>
          mret (runID, finalResult,
                Some (errors_Wrapf err "error inserting finished results for spec ID %v"
                        (ID spec)))
      | None => mret (runID, finalResult, None)
      end
  end.

End Runner.


(** ** Auxiliary definitions for the statements *)

(** The world after a reading of the clock, and the value read. *)
Definition tick (w : World) : World :=
  {| w_clock := w_clock w; w_reads := S (w_reads w);
     w_heap := w_heap w; w_trace := w_trace w |}.

Definition now (w : World) : Time := w_clock w (w_reads w).

(** The comparison [inputsSorted] gives to [sort.Slice]. *)
Definition index_less (i j : input) : bool := bool_decide (index i < index j).

(** The world after an event. *)
Definition traced (w : World) (e : Event) : World :=
  {| w_clock := w_clock w; w_reads := w_reads w;
     w_heap := w_heap w; w_trace := w_trace w ++ [e] |}.

(** The context and the world [taskContext] yields from the world in which
    [executeTaskRun] has read its [start]. *)
Definition passedContext (r : runner) (ctx : Context) (spec : Spec)
    (taskRun : memoryTaskRun) (w : World) : Context * World :=
  taskContext r ctx spec taskRun (tick w).

(** ** Example data *)

Definition exampleWorld : World :=
  {| w_clock := λ i, 100 + Z.of_nat i; w_reads := 0; w_heap := []; w_trace := [] |}.

Definition exampleORM (fails : bool) : ORM :=
  {| orm_DB := 7%nat;
     orm_InsertFinishedRun := λ _ _ _ _ w,
       if fails then ((0, Some (errors_New "insert failed")), w)
       else ((1, None), w) |}.

Definition exampleRunner (fails : bool) : runner :=
  {| orm := exampleORM fails; runner_config := 3%nat; chStop := 0%nat; chDone := 1%nat |}.

Definition exampleSpec (maxTaskDuration : Duration) : Spec :=
  {| ID := 42; JobID := 1; JobName := "job"; DotDagSource := "digraph";
     MaxTaskDuration := maxTaskDuration |}.

(** A task computing on integers; an errored or non-integer input is
    passed on as an error. *)
Definition intTask (id : string) (timeout : Duration * bool) (outs : list Edge)
    (f : list Z → Outcome Result) : Task :=
  {| DotID := id; Type_ := TaskTypeOther "int"; TaskTimeout := timeout;
     Outputs := outs; config := None; safeTx := None;
     Run_ := λ _ _ _ _ _ ins,
       match mapM (λ r, match Error r, Value r with
                        | None, anyInt z => Some z
                        | _, _ => None
                        end) ins with
       | Some zs => f zs
       | None => Returns {| Value := anyNil; Error := Some (errors_New "bad input") |}
       end |}.

Definition ok (z : Z) : Outcome Result :=
  Returns {| Value := anyInt z; Error := None |}.

Definition noTimeout : Duration * bool := (0, false).

(** The diamond A -> {B, C} -> D: A yields 20, B adds one, C subtracts
    one, D subtracts its second input from its first; the edge from B has
    index 0, the edge from C index 1.  C is listed, and so finishes,
    before B. *)
Definition diamond : Pipeline :=
  {| Tasks :=
       [ intTask "A" noTimeout [ {| e_to := "C"; e_index := 0 |};
                                 {| e_to := "B"; e_index := 0 |} ]
           (λ _, ok 20);
         intTask "B" noTimeout [ {| e_to := "D"; e_index := 0 |} ]
           (λ zs, ok (foldr Z.add 1 zs));
         intTask "C" noTimeout [ {| e_to := "D"; e_index := 1 |} ]
           (λ zs, ok (foldr Z.add (-1) zs));
         intTask "D" (Millisecond, true) []
           (λ zs, match zs with [a; b] => ok (a - b) | _ => ok 0 end) ] |}.

(** The same with a B that panics. *)
Definition diamondPanic : Pipeline :=
  {| Tasks :=
       [ intTask "A" noTimeout [ {| e_to := "C"; e_index := 0 |};
                                 {| e_to := "B"; e_index := 0 |} ]
           (λ _, ok 20);
         intTask "B" noTimeout [ {| e_to := "D"; e_index := 0 |} ]
           (λ _, Panics (PanicString "boom"));
         intTask "C" noTimeout [ {| e_to := "D"; e_index := 1 |} ]
           (λ zs, ok (foldr Z.add (-1) zs));
         intTask "D" (Millisecond, true) []
           (λ zs, match zs with [a; b] => ok (a - b) | _ => ok 0 end) ] |}.

Definition panickingTask : Task :=
  intTask "B" noTimeout [] (λ _, Panics (PanicString "boom")).

Definition exampleParse (p : Pipeline + error) : string → Pipeline + error := λ _, p.

Definition parseError : error := errors_New "invalid DOT".

(** The world after an attempt of the loop of [ExecuteRun] that asks for a
    retry: the attempt, then the sleep. *)
Definition failed (attempt : M (Run * TaskRunResults * bool * option error))
    (i : nat) (w : World) : World :=
  traced (attempt w).2 (EvSleep i).

(** [n] such attempts in a row, the first with loop counter [i]. *)
Fixpoint failures (attempt : M (Run * TaskRunResults * bool * option error))
    (n i : nat) (w : World) : World :=
  match n with
  | O => w
  | S n' => failures attempt n' (S i) (failed attempt i w)
  end.

(** An attempt that always asks for a retry. *)
Definition alwaysRetry : M (Run * TaskRunResults * bool * option error) :=
  mret (zeroRun, [], true, None).

(** The tasks the scheduler still has to emit: those in the ready set and
    those with predecessors pending. *)
Definition waiting (s : scheduler) : gmap string nat :=
  filter (λ kv, (0 < kv.2)%nat) (s_pending s).

Definition potential (s : scheduler) : nat :=
  (length (s_ready s) + size (waiting s))%nat.

(** ** Clocks *)

(** A clock that never runs backwards. *)
Definition monotone_clock (w : World) : Prop :=
  ∀ i j : nat, (i ≤ j)%nat → w_clock w i ≤ w_clock w j.

(** [w'] is [w] some readings of the same clock later. *)
Definition advances (w w' : World) : Prop :=
  w_clock w' = w_clock w ∧ (w_reads w ≤ w_reads w')%nat.

(** An attempt that asks for a retry as long as the clock reads less than
    [t]. *)
Definition retryUntil (t : Time) : M (Run * TaskRunResults * bool * option error) :=
  now ← time_Now;
  mret (zeroRun, [], bool_decide (now < t), None).

(** What the priming loop of [executeRun] does to one task instance. *)
Definition primed (r : runner) (txdb : DB) (mu : Loc) (t t' : Task) : Prop :=
  DotID t' = DotID t ∧ Type_ t' = Type_ t ∧ TaskTimeout t' = TaskTimeout t ∧
  Outputs t' = Outputs t ∧ Run_ t' = Run_ t ∧
  match Type_ t with
  | TaskTypeHTTP => config t' = Some (runner_config r) ∧ safeTx t' = safeTx t
  | TaskTypeBridge =>
      config t' = Some (runner_config r) ∧ safeTx t' = Some {| tx := txdb; txMu := mu |}
  | TaskTypeOther _ => t' = t
  end.

Definition needs_config (t : Task) : bool :=
  match Type_ t with
  | TaskTypeHTTP | TaskTypeBridge => true
  | TaskTypeOther _ => false
  end.

Definition exampleTasks : list Task :=
  [ {| DotID := "fetch"; Type_ := TaskTypeHTTP; TaskTimeout := noTimeout;
       Outputs := [ {| e_to := "parse"; e_index := 0 |} ]; config := None; safeTx := None;
       Run_ := λ _ _ _ _ _ _, ok 1 |};
    {| DotID := "bridge1"; Type_ := TaskTypeBridge; TaskTimeout := noTimeout;
       Outputs := [ {| e_to := "parse"; e_index := 1 |} ]; config := None; safeTx := None;
       Run_ := λ _ _ _ _ _ _, ok 2 |};
    {| DotID := "bridge2"; Type_ := TaskTypeBridge; TaskTimeout := noTimeout;
       Outputs := [ {| e_to := "parse"; e_index := 2 |} ]; config := None; safeTx := None;
       Run_ := λ _ _ _ _ _ _, ok 3 |};
    intTask "parse" noTimeout [] (λ zs, ok (foldr Z.add 0 zs)) ].

(** ** The service lifecycle: the reaper loop

    [runReaperLoop] blocks in a [select] between the stop channel and the
    ticker.  Which case fires each time is the environment's choice and
    is given as a list; when the list is used up the loop is still
    blocked.  The calls the loop makes are collected in order. *)

Inductive Selected :=
| SelectStop                     (* case <-r.chStop *)
| SelectTick.                    (* case <-runReaperTicker.C *)

Inductive ReaperCall :=
| NewTicker (interval : Duration)        (* time.NewTicker *)
| WakeUp                                 (* r.runReaperWorker.WakeUp() *)
| TickerStop                             (* runReaperTicker.Stop() *)
| WorkerStop                             (* r.runReaperWorker.Stop() *)
| LogError (err : error)                 (* logger.Error(err) *)
| CloseDone (ch : Chan).                 (* close(r.chDone) *)

Section Reaper.

(** [Config.JobPipelineReaperInterval()]. *)
Variable JobPipelineReaperInterval : Config → Duration.
(** What [runReaperWorker.Stop()] returns. *)
Variable runReaperWorker_Stop : option error.

Definition destroy : list ReaperCall :=
  WorkerStop ::
  match runReaperWorker_Stop with
  | Some err => [LogError err]
  | None => []
  end.

(** The [for { select { ... } }]: the calls made, and whether the loop
    returned. *)
Fixpoint reaperSelect (selections : list Selected) : list ReaperCall * bool :=
  match selections with
  | [] => ([], false)
  | SelectStop :: _ => ([], true)
  | SelectTick :: selections' =>
      let '(calls, returned) := reaperSelect selections' in
      (WakeUp :: calls, returned)
  end.

(** [time.NewTicker] panics when the interval is not positive: the two
    calls deferred by then ([destroy], then closing [chDone]) run and the
    panic leaves the goroutine.  Otherwise the loop runs, and when it
    returns the deferred calls run last in, first out: the ticker is
    stopped, then [destroy], then [chDone] is closed.  The result is the
    calls made and the panic that left the goroutine, if one did. *)
Definition runReaperLoop (r : runner) (selections : list Selected)
    : list ReaperCall * option PanicValue :=
  let interval := JobPipelineReaperInterval (runner_config r) in
  if bool_decide (interval ≤ 0) then
    (NewTicker interval :: destroy ++ [CloseDone (chDone r)],
     Some (PanicRuntimeError "non-positive interval for NewTicker"))
  else
    let '(calls, returned) := reaperSelect selections in
    (NewTicker interval :: calls ++
       (if returned : bool then TickerStop :: destroy ++ [CloseDone (chDone r)] else []),
     None).

End Reaper.

(** ** Webhook job specs ([core/services/webhook/validate.go]) *)

Definition ErrMissingJobID : error := errors_New "missing job ID".

Section Webhook.

(** The TOML tree, the task DAG, the webhook spec and the fields of a job
    the validation does not look at. *)
Variables (Tree TaskDAG WebhookSpec JobRest : Type).

(** [job.Job], by the fields [ValidateWebhookSpec] uses. *)
Record Job := {
  jb_Pipeline : TaskDAG;
  jb_ExternalJobID : N;                  (* uuid.UUID: 128 bits *)
  jb_Type : string;
  jb_SchemaVersion : N;                  (* uint32 *)
  jb_WebhookSpec : option WebhookSpec;   (* *WebhookSpec *)
  jb_rest : JobRest;
}.

(** [*pipeline.NewTaskDAG()] and the zero value of the other fields. *)
Variable NewTaskDAG : TaskDAG.
Variable zeroJobRest : JobRest.
(** [job.Webhook]. *)
Variable Webhook : string.
(** [toml.Load]. *)
Variable toml_Load : string → Tree + error.
(** [tree.Unmarshal(&jb)]: the job as the call leaves it, and its error. *)
Variable Unmarshal_Job : Tree → Job → Job * option error.
(** [tree.Unmarshal(&spec)] on a zero [spec]. *)
Variable Unmarshal_WebhookSpec : Tree → WebhookSpec * option error.

(** [job.Job{Pipeline: *pipeline.NewTaskDAG()}]. *)
Definition newJob : Job :=
  {| jb_Pipeline := NewTaskDAG; jb_ExternalJobID := 0%N; jb_Type := "";
     jb_SchemaVersion := 0%N; jb_WebhookSpec := None; jb_rest := zeroJobRest |}.

Definition ValidateWebhookSpec (tomlString : string) : Job * option error :=
  let jb := newJob in
  match toml_Load tomlString with
  | inr err => (jb, Some err)
  | inl tree =>
      let '(jb, err) := Unmarshal_Job tree jb in
      match err with
      | Some err => (jb, Some err)
      | None =>
          if bool_decide (jb_ExternalJobID jb = 0%N) then (jb, Some ErrMissingJobID)
          else if bool_decide (jb_Type jb ≠ Webhook) then
            (jb, Some (errors_New ("unsupported type " +:+ jb_Type jb)))
          else if bool_decide (jb_SchemaVersion jb ≠ 1%N) then
            (jb, Some (errors_New
                         ("the only supported schema version is currently 1, got "
                          +:+ pretty (jb_SchemaVersion jb))))
          else
            let '(spec, err) := Unmarshal_WebhookSpec tree in
            match err with
            | Some err => (jb, Some err)
            | None =>
                ({| jb_Pipeline := jb_Pipeline jb;
                    jb_ExternalJobID := jb_ExternalJobID jb;
                    jb_Type := jb_Type jb;
                    jb_SchemaVersion := jb_SchemaVersion jb;
                    jb_WebhookSpec := Some spec;
                    jb_rest := jb_rest jb |}, None)
            end
      end
  end.

End Webhook.

Arguments jb_Pipeline {_ _ _} _.
Arguments jb_ExternalJobID {_ _ _} _.
Arguments jb_Type {_ _ _} _.
Arguments jb_SchemaVersion {_ _ _} _.
Arguments jb_WebhookSpec {_ _ _} _.
Arguments jb_rest {_ _ _} _.

(** A toy TOML reader for the examples: the tree is the text itself, the
    job is read off fixed texts, the webhook spec is always there. *)
Definition exampleJob (id : N) (type : string) (version : N)
    : Job (list string) unit unit :=
  {| jb_Pipeline := []; jb_ExternalJobID := id; jb_Type := type;
     jb_SchemaVersion := version; jb_WebhookSpec := None; jb_rest := tt |}.

Definition exampleUnmarshal (tree : string) (jb : Job (list string) unit unit)
    : Job (list string) unit unit * option error :=
  if bool_decide (tree = "no id, cron, v2") then (exampleJob 0 "cron" 2, None)
  else if bool_decide (tree = "cron, v2") then (exampleJob 9 "cron" 2, None)
  else if bool_decide (tree = "webhook, v2") then (exampleJob 9 "webhook" 2, None)
  else if bool_decide (tree = "webhook, v1") then (exampleJob 9 "webhook" 1, None)
  else (jb, Some (errors_New "bad job")).

Definition exampleValidate : string → Job (list string) unit unit * option error :=
  ValidateWebhookSpec string (list string) unit unit [] tt "webhook"
    (λ s, if bool_decide (s = "") then inr (errors_New "empty") else inl s)
    exampleUnmarshal (λ _, (tt, None)).

(** The events of one turn of the dispatch loop: the goroutine is started
    and calls its task. *)
Definition spawned (call : string * Context * list Result) : list Event :=
  let '(dotID, ctx, inputs) := call in
  [EvSpawn dotID; EvTaskRun dotID ctx inputs].

Definition cancelledContext : Context :=
  {| ctx_deadline := Some 1; ctx_done := [] |}.

(** What [executeTaskRun] makes of the outcome of its call of [Task.Run]:
    the result of the task, stamped, or the panic of the task. *)
Definition taskOutcome (taskRun : memoryTaskRun) (start finished : Time)
    (o : Outcome Result) : Outcome TaskRunResult :=
  match o with
  | Returns result =>
      Returns {| trr_Task := task taskRun; trr_Result := result;
                 trr_CreatedAt := start; trr_FinishedAt := finished |}
  | Panics v => Panics v
  end.

(** A task that reports the context it is run with: whether that context
    is cancelled at time [t] once the channels [closed] are closed. *)
Definition probeTask (timeout : Duration * bool) (closed : list Chan) (t : Time) : Task :=
  {| DotID := "probe"; Type_ := TaskTypeOther "probe"; TaskTimeout := timeout;
     Outputs := []; config := None; safeTx := None;
     Run_ := λ _ _ ctx _ _ _,
       Returns {| Value := anyString (if ctx_cancelled ctx closed t
                                      then "cancelled" else "running");
                  Error := None |} |}.

(** The events of the workers: a goroutine is started, a task is run. *)
Definition worker_event (e : Event) : bool :=
  match e with
  | EvSpawn _ | EvTaskRun _ _ _ => true
  | _ => false
  end.
(** * Properties *)

(** ** Insertion sort meets the contract of [sort.Slice] *)

Lemma insert_by_perm {A} (less : A → A → bool) x l :
  insert_by less x l ≡ₚ x :: l.
Proof.
  induction l as [|y l IH]; simpl; [done|].
  destruct (less x y); [done|].
  rewrite IH. apply Permutation_swap.
Qed.

Lemma insertionSort_perm {A} (less : A → A → bool) l :
  insertionSort less l ≡ₚ l.
Proof.
  induction l as [|x l IH]; simpl; [done|].
  by rewrite insert_by_perm, IH.
Qed.

Lemma insert_by_sorted {A} (less : A → A → bool) x l :
  StrictWeakOrder less →
  StronglySorted (ordered_by less) l →
  StronglySorted (ordered_by less) (insert_by less x l).
Proof.
  intros Hswo. induction l as [|y l IH]; simpl; intros Hl.
  - repeat constructor.
  - apply StronglySorted_cons in Hl as [Hy Hl].
    destruct (less x y) eqn:Hxy.
    + apply StronglySorted_cons. split.
      * constructor; [by apply (swo_asym _ Hswo)|].
        eapply Forall_impl; [exact Hy|]. intros z Hz. unfold ordered_by in *.
        destruct (less z x) eqn:Hzx; [|done].
        assert (less y x = false) as Hyx by by apply (swo_asym _ Hswo).
        pose proof (swo_negtrans _ Hswo _ _ _ Hz Hyx). congruence.
      * apply StronglySorted_cons. done.
    + apply StronglySorted_cons. split; [|by apply IH].
      rewrite (insert_by_perm less x l). by constructor.
Qed.

Lemma insertionSort_sorted {A} (less : A → A → bool) l :
  StrictWeakOrder less → StronglySorted (ordered_by less) (insertionSort less l).
Proof.
  intros Hswo. induction l as [|x l IH]; simpl; [constructor|].
  by apply insert_by_sorted.
Qed.

Definition insertionSliceSort : SliceSort :=
  {| sort_Slice := @insertionSort;
     sort_Slice_perm := @insertionSort_perm;
     sort_Slice_sorted := @insertionSort_sorted |}.


(** Unfolding the monad. *)
Ltac run_M := unfold mbind, M_bind, mret, M_ret, emit, time_Now, alloc in *; simpl in *.

Lemma time_Now_eq w : time_Now w = (now w, tick w).
Proof. reflexivity. Qed.

Lemma M_bind_eq {A B} (f : A → M B) (m : M A) w :
  (m ≫= f) w = f (m w).1 (m w).2.
Proof. unfold mbind, M_bind. by destruct (m w). Qed.

Lemma M_ret_eq {A} (a : A) w : (mret a : M A) w = (a, w).
Proof. reflexivity. Qed.

(** ** Inputs are sorted by edge index *)

Lemma index_less_swo : StrictWeakOrder index_less.
Proof.
  split; unfold index_less; intros *; rewrite ?bool_decide_eq_true, ?bool_decide_eq_false; lia.
Qed.

Lemma ordered_by_index (l : list input) :
  StronglySorted (ordered_by index_less) l ↔ StronglySorted (λ a b, index a ≤ index b) l.
Proof.
  assert (∀ a b, ordered_by index_less a b ↔ index a ≤ index b) as Hrel.
  { intros a b. unfold ordered_by, index_less. rewrite bool_decide_eq_false. lia. }
  induction l as [|x l IH]; [split; constructor|].
  rewrite !StronglySorted_cons, IH.
  split; intros [Hx ?]; (split; [|done]);
    (eapply Forall_impl; [exact Hx|]); intros y; apply Hrel.
Qed.

Section Sorting.
Context {sorter : SliceSort}.

Lemma inputsSorted_spec (m : memoryTaskRun) :
  ∃ sorted, inputsSorted m = result <$> sorted ∧ sorted ≡ₚ inputs m ∧
            StronglySorted (λ a b, index a ≤ index b) sorted.
Proof.
  exists (sort_Slice index_less (inputs m)). split; [done|]. split.
  - apply sort_Slice_perm.
  - apply ordered_by_index, sort_Slice_sorted, index_less_swo.
Qed.

(** With distinct indices the sorted order is unique. *)
Lemma sorted_by_index_unique (l1 l2 : list input) :
  NoDup (index <$> l1) → l1 ≡ₚ l2 →
  StronglySorted (λ a b, index a ≤ index b) l1 →
  StronglySorted (λ a b, index a ≤ index b) l2 →
  l1 = l2.
Proof.
  intros Hnd Hp H1 H2.
  apply (StronglySorted_unique_strong (λ a b, index a ≤ index b)); [|done..].
  intros x1 x2 Hx1 Hx2 Hle Hge.
  assert (x2 ∈ l1) as Hx2' by by rewrite Hp.
  assert (index x1 = index x2) as Heq by lia.
  apply list_elem_of_lookup in Hx1 as [i Hi], Hx2' as [j Hj].
  assert (i = j) as ->.
  { eapply NoDup_lookup; [exact Hnd| |]; rewrite list_lookup_fmap.
    - by rewrite Hi.
    - rewrite Hj. simpl. by rewrite Heq. }
  congruence.
Qed.

Lemma inputsSorted_order_irrelevant (m m' : memoryTaskRun) :
  inputs m' ≡ₚ inputs m → NoDup (index <$> inputs m) →
  inputsSorted m' = inputsSorted m.
Proof.
  intros Hp Hnd.
  destruct (inputsSorted_spec m) as (l & -> & Hl & Hs).
  destruct (inputsSorted_spec m') as (l' & -> & Hl' & Hs').
  f_equal. apply sorted_by_index_unique; [| |done..].
  - by rewrite Hl', Hp.
  - by rewrite Hl', Hp, Hl.
Qed.

End Sorting.

(** ** Sanity checks of the model on the scenarios of the spec *)

Example diamond_run :
  let '(run, trrs, retry, err, w) :=
    executeRun (sorter := insertionSliceSort) (exampleParse (inl diamond))
      (exampleRunner false) context_Background 7%nat (exampleSpec 0) (anyInt 5)
      zeroJSONSerializable exampleWorld in
  run_Outputs run = {| Val := anySlice [anyInt 2]; Null := false |} ∧
  run_Errors run = [None] ∧
  (DotID ∘ trr_Task) <$> trrs = ["A"; "C"; "B"; "D"] ∧
  retry = false ∧ err = None.
Proof. vm_compute. done. Qed.

Example diamond_panic_run :
  let '(run, trrs, retry, err, w) :=
    executeRun (sorter := insertionSliceSort) (exampleParse (inl diamondPanic))
      (exampleRunner false) context_Background 7%nat (exampleSpec 0) (anyInt 5)
      zeroJSONSerializable exampleWorld in
  run_Errors run = [Some (errors_New "bad input")] ∧
  (λ trr, (DotID (trr_Task trr), Error (trr_Result trr))) <$> trrs
    = [("A", None); ("C", None); ("B", Some (panicError (PanicString "boom")));
       ("D", Some (errors_New "bad input"))] ∧
  retry = false ∧ err = None.
Proof. vm_compute. done. Qed.

(** ** The dispatch loop drains the scheduler

    Every turn of [dispatch] takes one task out of the ready set, and a
    result that arrives moves a task into the ready set only when its last
    pending predecessor reports.  So the tasks yet to be emitted decrease
    with every turn, and as many turns as the DAG has tasks leave the
    ready set empty: the loop ends because the channel is closed. *)

Lemma deliver_potential (r : Result) (s : scheduler) (e : Edge) :
  (potential (deliver r s e) ≤ potential s)%nat.
Proof.
  unfold deliver, potential, waiting.
  destruct (s_pending s !! e_to e) as [[|[|n]]|] eqn:Hk; simpl; [lia| | |lia].
  - rewrite map_filter_insert_False by (simpl; lia).
    rewrite map_filter_delete, map_size_delete.
    assert (filter (λ kv : string * nat, (0 < kv.2)%nat) (s_pending s) !! e_to e = Some 1%nat)
      as Hf by (apply map_lookup_filter_Some; split; [done|simpl; lia]).
    rewrite Hf.
    assert (size (filter (λ kv : string * nat, (0 < kv.2)%nat) (s_pending s)) ≠ 0%nat) as Hnz.
    { intros Hz%map_size_empty_iff. by rewrite Hz, lookup_empty in Hf. }
    destruct (find_task _ _); rewrite ?length_app; simpl; lia.
  - rewrite map_filter_insert_True by (simpl; lia).
    rewrite map_size_insert_Some; [lia|].
    exists (S (S n)). apply map_lookup_filter_Some. split; [done|simpl; lia].
Qed.

Lemma deliver_all_potential (r : Result) (es : list Edge) (s : scheduler) :
  (potential (foldl (deliver r) s es) ≤ potential s)%nat.
Proof.
  revert s. induction es as [|e es IH]; intros s; simpl; [lia|].
  etrans; [apply IH|apply deliver_potential].
Qed.

Lemma absorb_potential (s : scheduler) (trr : TaskRunResult) :
  (potential (absorb s trr) ≤ potential s)%nat.
Proof. apply (deliver_all_potential (trr_Result trr) (Outputs (trr_Task trr)) s). Qed.

Lemma absorb_all_potential (trrs : list TaskRunResult) (s : scheduler) :
  (potential (foldl absorb s trrs) ≤ potential s)%nat.
Proof.
  revert s. induction trrs as [|trr trrs IH]; intros s; simpl; [lia|].
  etrans; [apply IH|apply absorb_potential].
Qed.

Lemma dispatch_drains (turns : nat) (work : memoryTaskRun → M Goroutine)
    (s : scheduler) (w : World) :
  (potential s ≤ turns)%nat → s_ready (dispatch turns work s w).1 = [].
Proof.
  revert s w. induction turns as [|turns IH]; intros s w Hs.
  - simpl. unfold potential in Hs. destruct (s_ready s); [done|simpl in Hs; lia].
  - cbn [dispatch]. destruct (s_ready s) as [|t ready'] eqn:Hr; [done|].
    rewrite !M_bind_eq. apply IH.
    etrans; [apply absorb_all_potential|].
    unfold potential in *. rewrite Hr in Hs. simpl in *. unfold waiting in *. simpl. lia.
Qed.

Lemma waiting_list_to_map (l : list (string * nat)) :
  (size (filter (λ kv : string * nat, (0 < kv.2)%nat) (list_to_map l : gmap string nat))
   ≤ length (List.filter (λ kv : string * nat, bool_decide (0 < kv.2)%nat) l))%nat.
Proof.
  induction l as [|[k n] l IH]; simpl.
  - by rewrite map_filter_empty, map_size_empty.
  - rewrite map_filter_insert. destruct (decide _) as [Hp|Hp]; simpl in Hp.
    + rewrite bool_decide_eq_true_2 by done. simpl.
      rewrite map_size_insert. destruct (_ !! k); simpl; lia.
    + rewrite bool_decide_eq_false_2 by done.
      rewrite map_filter_delete, map_size_delete. destruct (_ !! k); simpl; lia.
Qed.

Lemma newScheduler_potential (p : Pipeline) (pipelineInput : any) :
  (potential (newScheduler p pipelineInput) ≤ length (Tasks p))%nat.
Proof.
  unfold potential, waiting, newScheduler. simpl.
  etrans; [apply Nat.add_le_mono_l, waiting_list_to_map|].
  induction (Tasks p) as [|t ts IH]; simpl; [done|].
  destruct (is_root p t) eqn:Hroot; unfold is_root in Hroot.
  - apply bool_decide_eq_true in Hroot. rewrite Hroot.
    rewrite (bool_decide_eq_false_2 (0 < 0)%nat) by lia. simpl.
    apply le_n_S. exact IH.
  - apply bool_decide_eq_false in Hroot.
    rewrite (bool_decide_eq_true_2 (0 < in_degree p t)%nat) by lia. simpl.
    rewrite Nat.add_succ_r. apply le_n_S. exact IH.
Qed.

(** The loop of [executeRun] ends with every emitted task reported and
    the ready set empty. *)
Lemma dispatch_pipeline_drains (p : Pipeline) (pipelineInput : any)
    (work : memoryTaskRun → M Goroutine) (w : World) :
  s_ready (dispatch (length (Tasks p)) work (newScheduler p pipelineInput) w).1 = [].
Proof. apply dispatch_drains, newScheduler_potential. Qed.

(** ** The per-task executor *)

Section Executor.
Context {sorter : SliceSort}.

Lemma taskContext_eq r ctx spec m w :
  taskContext r ctx spec m w =
    match TaskTimeout (task m) with
    | (d, true) =>
        ({| ctx_deadline := Some (now w + d); ctx_done := [chStop r] |}, tick w)
    | (_, false) =>
        if decide (MaxTaskDuration spec = 0) then (ctx, w)
        else ({| ctx_deadline := Some (now w + MaxTaskDuration spec);
                 ctx_done := [chStop r] |}, tick w)
    end.
Proof.
  unfold taskContext. destruct (TaskTimeout (task m)) as [d [|]]; [done|].
  destruct (decide (MaxTaskDuration spec = 0)) as [->|Hne].
  - done.
  - by rewrite bool_decide_eq_true_2.
Qed.

Lemma taskContext_trace r ctx spec m w :
  w_trace (taskContext r ctx spec m w).2 = w_trace w ∧
  w_heap (taskContext r ctx spec m w).2 = w_heap w.
Proof.
  rewrite taskContext_eq. destruct (TaskTimeout (task m)) as [d [|]]; [done|].
  by destruct (decide _).
Qed.

(** [executeTaskRun], step by step. *)
Lemma executeTaskRun_eq r ctx spec m meta w :
  executeTaskRun r ctx spec m meta w =
    let '(ctx', w1) := passedContext r ctx spec m w in
    let w2 := traced w1 (EvTaskRun (DotID (task m)) ctx' (inputsSorted m)) in
    match Task_Run (task m) ctx' (vars m) meta (inputsSorted m) with
    | Panics v => (Panics v, w2)
    | Returns res =>
        (Returns {| trr_Task := task m; trr_Result := res;
                    trr_CreatedAt := now w; trr_FinishedAt := now w2 |}, tick w2)
    end.
Proof.
  unfold executeTaskRun, passedContext. run_M.
  change {| w_clock := w_clock w; w_reads := S (w_reads w);
            w_heap := w_heap w; w_trace := w_trace w |} with (tick w).
  destruct (taskContext r ctx spec m (tick w)) as [ctx' w1]. simpl.
  by destruct (Task_Run _ _ _ _ _).
Qed.

(** Every invocation makes one call of [Task.Run], with the context of
    [taskContext] and the sorted inputs. *)
Lemma executeTaskRun_trace r ctx spec m meta w :
  w_trace (executeTaskRun r ctx spec m meta w).2 =
    w_trace w ++ [EvTaskRun (DotID (task m)) (passedContext r ctx spec m w).1
                    (inputsSorted m)].
Proof.
  rewrite executeTaskRun_eq. unfold passedContext.
  pose proof (taskContext_trace r ctx spec m (tick w)) as [Ht _].
  destruct (taskContext r ctx spec m (tick w)) as [ctx' w1]. simpl in *.
  destruct (Task_Run _ _ _ _ _); simpl; by rewrite Ht.
Qed.

(** The outcome of [executeTaskRun] is that of its one call of [Task.Run],
    on the context of [taskContext] and the sorted inputs. *)
Lemma executeTaskRun_outcome r ctx spec m meta w :
  (executeTaskRun r ctx spec m meta w).1 =
    taskOutcome m (now w) (now (passedContext r ctx spec m w).2)
      (Task_Run (task m) (passedContext r ctx spec m w).1 (vars m) meta (inputsSorted m)).
Proof.
  rewrite executeTaskRun_eq.
  destruct (passedContext r ctx spec m w) as [ctx' w1]. simpl.
  by destruct (Task_Run _ _ _ _ _).
Qed.

End Executor.

(** C3. For every task invocation, [executeTaskRun] calls [Task.Run] on
    a context [ctx'] (the outcome of the invocation is the outcome of that
    call, and the call is recorded with that context) whose deadline comes
    from the first source that declares one: the task's own [TaskTimeout]
    if set; otherwise the spec's [MaxTaskDuration] if it is not zero;
    otherwise [ctx'] is the caller's context, passed on as it is. *)
Theorem timeout_precedence {sorter : SliceSort} (r : runner) (ctx : Context)
    (spec : Spec) (taskRun : memoryTaskRun) (meta : JSONSerializable) (w : World) :
  ∃ ctx' finished,
    (executeTaskRun r ctx spec taskRun meta w).1 =
      taskOutcome taskRun (now w) finished
        (Task_Run (task taskRun) ctx' (vars taskRun) meta (inputsSorted taskRun)) ∧
    w_trace (executeTaskRun r ctx spec taskRun meta w).2 =
      w_trace w ++ [EvTaskRun (DotID (task taskRun)) ctx' (inputsSorted taskRun)] ∧
    match TaskTimeout (task taskRun) with
    | (taskTimeout, true) => ctx_deadline ctx' = Some (now (tick w) + taskTimeout)
    | (_, false) =>
        if decide (MaxTaskDuration spec = 0) then ctx' = ctx
        else ctx_deadline ctx' = Some (now (tick w) + MaxTaskDuration spec)
    end.
Proof.
  exists (passedContext r ctx spec taskRun w).1, (now (passedContext r ctx spec taskRun w).2).
  split_and!.
  - apply executeTaskRun_outcome.
  - apply executeTaskRun_trace.
  - unfold passedContext. rewrite taskContext_eq.
    destruct (TaskTimeout (task taskRun)) as [d [|]]; [done|].
    by destruct (decide _).
Qed.

(** The example of the spec: the task declares 1 ms, the spec 1 h, the
    context no deadline; the deadline is 1 ms after the context is made. *)
Example timeout_precedence_1ms :
  let m := {| task := intTask "t" (Millisecond, true) [] (λ _, ok 0);
              inputs := []; vars := [] |} in
  w_trace (executeTaskRun (sorter := insertionSliceSort) (exampleRunner false)
             context_Background (exampleSpec Hour) m zeroJSONSerializable
             exampleWorld).2
  = [EvTaskRun "t" {| ctx_deadline := Some (101 + Millisecond); ctx_done := [0%nat] |} []].
Proof. reflexivity. Qed.

(** The task itself sees that deadline: a probe with a timeout of 1 ms,
    run under a spec of 1 h with a caller's context that is already
    expired, finds its context running just before 1 ms has passed and
    cancelled from then on. *)
Example timeout_precedence_probe :
  let seen t :=
    match (executeTaskRun (sorter := insertionSliceSort) (exampleRunner false)
             cancelledContext (exampleSpec Hour)
             {| task := probeTask (Millisecond, true) [] t; inputs := []; vars := [] |}
             zeroJSONSerializable exampleWorld).1 with
    | Returns trr => Value (trr_Result trr)
    | Panics _ => anyNil
    end in
  seen (101 + Millisecond - 1) = anyString "running" ∧
  seen (101 + Millisecond) = anyString "cancelled".
Proof. vm_compute. done. Qed.

(** C4, as the claim has it, fails: a task without a timeout under a spec
    whose [MaxTaskDuration] is zero is run with the caller's context, which
    closing [chStop] does not cancel. *)
Lemma stop_signal_not_composed :
  let r := exampleRunner false in
  let m := {| task := intTask "t" noTimeout [] (λ _, ok 0); inputs := []; vars := [] |} in
  ∃ ctx',
    w_trace (executeTaskRun (sorter := insertionSliceSort) r context_Background
               (exampleSpec 0) m zeroJSONSerializable exampleWorld).2
    = [EvTaskRun "t" ctx' []] ∧
    (∀ t, ctx_cancelled ctx' [chStop r] t = false) ∧
    (executeTaskRun (sorter := insertionSliceSort) r context_Background
       (exampleSpec 0) m zeroJSONSerializable exampleWorld).1
    = taskOutcome m 100 101 (Task_Run (task m) ctx' (vars m) zeroJSONSerializable []).
Proof.
  exists context_Background. split_and!; [reflexivity|done|vm_compute; reflexivity].
Qed.

(** C4, amended. When the task declares a timeout or the spec's
    [MaxTaskDuration] is not zero, the context [executeTaskRun] calls
    [Task.Run] on (the outcome of the invocation is the outcome of that
    call) is composed of the chosen timeout and [chStop], so that closing
    [chStop] cancels it; otherwise [Task.Run] is called on the caller's
    context, unchanged. *)
Theorem stop_signal_composed {sorter : SliceSort} (r : runner) (ctx : Context)
    (spec : Spec) (taskRun : memoryTaskRun) (meta : JSONSerializable) (w : World) :
  ∃ ctx' finished,
    (executeTaskRun r ctx spec taskRun meta w).1 =
      taskOutcome taskRun (now w) finished
        (Task_Run (task taskRun) ctx' (vars taskRun) meta (inputsSorted taskRun)) ∧
    w_trace (executeTaskRun r ctx spec taskRun meta w).2 =
      w_trace w ++ [EvTaskRun (DotID (task taskRun)) ctx' (inputsSorted taskRun)] ∧
    if (TaskTimeout (task taskRun)).2 || bool_decide (MaxTaskDuration spec ≠ 0)
    then ctx_done ctx' = [chStop r] ∧
         ∀ closed t, chStop r ∈ closed → ctx_cancelled ctx' closed t = true
    else ctx' = ctx.
Proof.
  exists (passedContext r ctx spec taskRun w).1, (now (passedContext r ctx spec taskRun w).2).
  split_and!.
  - apply executeTaskRun_outcome.
  - apply executeTaskRun_trace.
  - unfold passedContext. rewrite taskContext_eq.
    assert (∀ d closed t, chStop r ∈ closed →
      ctx_cancelled {| ctx_deadline := d; ctx_done := [chStop r] |} closed t = true) as Hc.
    { intros d closed t Hin. unfold ctx_cancelled. simpl.
      rewrite (bool_decide_eq_true_2 _ Hin). simpl. apply orb_true_r. }
    destruct (TaskTimeout (task taskRun)) as [d [|]]; simpl; [by split; [|apply Hc]|].
    destruct (decide (MaxTaskDuration spec = 0)) as [Hz|Hnz].
    + by rewrite (bool_decide_eq_false_2 _ (λ H, H Hz)).
    + rewrite (bool_decide_eq_true_2 _ Hnz). by split; [|apply Hc].
Qed.

(** The task itself sees the stop signal when a timeout is chosen, and
    does not when none is: with [chStop] closed, a probe with a timeout of
    1 h finds its context cancelled at once; a probe without timeout,
    under a spec without [MaxTaskDuration] and a background context,
    finds it running. *)
Example stop_signal_probe :
  let seen timeout :=
    match (executeTaskRun (sorter := insertionSliceSort) (exampleRunner false)
             context_Background (exampleSpec 0)
             {| task := probeTask timeout [chStop (exampleRunner false)] 0;
                inputs := []; vars := [] |}
             zeroJSONSerializable exampleWorld).1 with
    | Returns trr => Value (trr_Result trr)
    | Panics _ => anyNil
    end in
  seen (Hour, true) = anyString "cancelled" ∧
  seen noTimeout = anyString "running".
Proof. vm_compute. done. Qed.

(** C5. The inputs [executeTaskRun] passes to [Task.Run] (the outcome of
    the invocation is the outcome of that call, and the call is recorded
    with them) are the results of the descriptor's inputs in ascending
    order of their edge index, whatever the order in which they were
    collected. *)
Theorem inputs_sorted_by_index {sorter : SliceSort} (r : runner) (ctx : Context)
    (spec : Spec) (m : memoryTaskRun) (meta : JSONSerializable) (w : World) :
  ∃ ctx' finished sorted,
    (executeTaskRun r ctx spec m meta w).1 =
      taskOutcome m (now w) finished
        (Task_Run (task m) ctx' (vars m) meta (result <$> sorted)) ∧
    w_trace (executeTaskRun r ctx spec m meta w).2 =
      w_trace w ++ [EvTaskRun (DotID (task m)) ctx' (result <$> sorted)] ∧
    sorted ≡ₚ inputs m ∧
    StronglySorted (λ a b, index a ≤ index b) sorted ∧
    ∀ m', inputs m' ≡ₚ inputs m → NoDup (index <$> inputs m) →
          inputsSorted m' = result <$> sorted.
Proof.
  destruct (inputsSorted_spec m) as (sorted & Heq & Hp & Hs).
  exists (passedContext r ctx spec m w).1, (now (passedContext r ctx spec m w).2), sorted.
  split_and!; [| |done..|].
  - rewrite <-Heq. apply executeTaskRun_outcome.
  - rewrite <-Heq. apply executeTaskRun_trace.
  - intros m' Hp' Hnd. rewrite <-Heq. by apply inputsSorted_order_irrelevant.
Qed.

(** The descriptor of D in the diamond, as the scheduler collects it when
    C finishes before B: D is run on [21; 19] and yields 2. *)
Lemma inputs_sorted_by_index_witness :
  let r21 := {| Value := anyInt 21; Error := None |} in
  let r19 := {| Value := anyInt 19; Error := None |} in
  let d := intTask "D" noTimeout [] (λ zs, match zs with [a; b] => ok (a - b) | _ => ok 0 end) in
  let m := {| task := d; vars := [];
              inputs := [ {| result := r19; index := 1 |}; {| result := r21; index := 0 |} ] |} in
  let m' := {| task := d; vars := [];
               inputs := [ {| result := r21; index := 0 |}; {| result := r19; index := 1 |} ] |} in
  let out := (executeTaskRun (sorter := insertionSliceSort) (exampleRunner false)
                context_Background (exampleSpec 0) m zeroJSONSerializable exampleWorld).1 in
  ∃ ctx' finished sorted,
    out = taskOutcome m 100 finished
            (Task_Run d ctx' [] zeroJSONSerializable (result <$> sorted)) ∧
    result <$> sorted = [r21; r19] ∧
    inputsSorted (sorter := insertionSliceSort) m' = result <$> sorted ∧
    out = Returns {| trr_Task := d; trr_Result := {| Value := anyInt 2; Error := None |};
                     trr_CreatedAt := 100; trr_FinishedAt := 101 |}.
Proof.
  intros r21 r19 d m m' out.
  destruct (inputs_sorted_by_index (sorter := insertionSliceSort) (exampleRunner false)
              context_Background (exampleSpec 0) m zeroJSONSerializable exampleWorld)
    as (ctx' & finished & sorted & Hout & Ht & Hp & Hs & Hany).
  exists ctx', finished, sorted. split; [exact Hout|].
  assert (inputsSorted (sorter := insertionSliceSort) m' = result <$> sorted) as Hm'.
  { apply Hany.
    - apply Permutation_swap.
    - apply NoDup_cons. split; [by intros [=]%list_elem_of_singleton|apply NoDup_singleton]. }
  split; [|split; [exact Hm'|]].
  - rewrite <-Hm'. reflexivity.
  - vm_compute. reflexivity.
Defined.

(** ** The worker *)

Section Worker.
Context {sorter : SliceSort}.

(** The worker, step by step. *)
Lemma worker_eq r ctx spec meta m w :
  worker r ctx spec meta m w =
    let '(body, w1) := executeTaskRun r ctx spec m meta w in
    match body with
    | Returns res => ({| posted := [res]; escaped := None |}, w1)
    | Panics v =>
        ({| posted := [ {| trr_Task := task m;
                           trr_Result := {| Value := anyNil; Error := Some (panicError v) |};
                           trr_CreatedAt := zeroTime;
                           trr_FinishedAt := now w1 |} ];
            escaped := None |}, tick w1)
    end.
Proof.
  unfold worker. run_M.
  destruct (executeTaskRun r ctx spec m meta w) as [[res|v] w1]; reflexivity.
Qed.

(** No panic leaves a worker, and every worker sends one result, for the
    task of its descriptor. *)
Lemma worker_posts_once r ctx spec meta m w :
  ∃ trr, (worker r ctx spec meta m w).1 = {| posted := [trr]; escaped := None |} ∧
         trr_Task trr = task m.
Proof.
  rewrite worker_eq, executeTaskRun_eq.
  destruct (passedContext r ctx spec m w) as [ctx' w1].
  destruct (Task_Run _ _ _ _ _); simpl; eauto.
Qed.

(** A worker whose task returns sends the result of [executeTaskRun], with
    [CreatedAt] the worker's start timestamp. *)
Lemma worker_returns r ctx spec meta m w res :
  Task_Run (task m) (passedContext r ctx spec m w).1 (vars m) meta (inputsSorted m)
    = Returns res →
  ∃ trr, posted (worker r ctx spec meta m w).1 = [trr] ∧
         trr_Result trr = res ∧ trr_CreatedAt trr = now w.
Proof.
  intros Hrun. rewrite worker_eq, executeTaskRun_eq.
  destruct (passedContext r ctx spec m w) as [ctx' w1]. simpl in *.
  rewrite Hrun. simpl. eauto.
Qed.

(** A worker whose task panics sends the synthetic result, whose
    [CreatedAt] is the zero time. *)
Lemma worker_panics r ctx spec meta m w v :
  Task_Run (task m) (passedContext r ctx spec m w).1 (vars m) meta (inputsSorted m)
    = Panics v →
  ∃ finished,
    (worker r ctx spec meta m w).1 =
      {| posted := [ {| trr_Task := task m;
                        trr_Result := {| Value := anyNil; Error := Some (panicError v) |};
                        trr_CreatedAt := zeroTime;
                        trr_FinishedAt := finished |} ];
         escaped := None |}.
Proof.
  intros Hrun. rewrite worker_eq, executeTaskRun_eq.
  destruct (passedContext r ctx spec m w) as [ctx' w1]. simpl in *.
  rewrite Hrun. simpl. eauto.
Qed.

End Worker.

(** C6. When the execution of a task panics, the worker traps the panic
    (none leaves the goroutine) and sends on the scheduler's result channel
    one result, for that task, whose error is [panicError] of the panic
    value and whose value is nil. *)
Theorem worker_traps_panic {sorter : SliceSort} (r : runner) (ctx : Context)
    (spec : Spec) (meta : JSONSerializable) (taskRun : memoryTaskRun) (w : World)
    (v : PanicValue) :
  Task_Run (task taskRun) (passedContext r ctx spec taskRun w).1 (vars taskRun) meta
    (inputsSorted taskRun) = Panics v →
  ∃ trr,
    (worker r ctx spec meta taskRun w).1 = {| posted := [trr]; escaped := None |} ∧
    trr_Task trr = task taskRun ∧
    trr_Result trr = {| Value := anyNil; Error := Some (panicError v) |}.
Proof.
  intros Hrun. destruct (worker_panics r ctx spec meta taskRun w v Hrun) as [fin Hw].
  rewrite Hw. eexists. split; [reflexivity|]. done.
Qed.

Lemma worker_traps_panic_witness :
  let m := {| task := panickingTask; inputs := []; vars := [] |} in
  ∃ trr,
    (worker (sorter := insertionSliceSort) (exampleRunner false) context_Background
       (exampleSpec 0) zeroJSONSerializable m exampleWorld).1
      = {| posted := [trr]; escaped := None |} ∧
    trr_Task trr = panickingTask ∧
    trr_Result trr = {| Value := anyNil; Error := Some (panicError (PanicString "boom")) |}.
Proof.
  intros m.
  apply (worker_traps_panic (sorter := insertionSliceSort) (exampleRunner false)
           context_Background (exampleSpec 0) zeroJSONSerializable m exampleWorld
           (PanicString "boom")).
  reflexivity.
Defined.

(** C7 fails on the panic path. The worker of a panicking task starts at
    time 100 and sends a result whose [CreatedAt] is the zero time, not
    100; the worker of a task that returns sends one with [CreatedAt]
    100. *)
Theorem panic_result_CreatedAt_unset :
  let work t := worker (sorter := insertionSliceSort) (exampleRunner false)
                  context_Background (exampleSpec 0) zeroJSONSerializable
                  {| task := t; inputs := []; vars := [] |} exampleWorld in
  now exampleWorld = 100 ∧
  (trr_CreatedAt <$> posted (work panickingTask).1 = [zeroTime]) ∧
  (trr_FinishedAt <$> posted (work panickingTask).1 = [101]) ∧
  (trr_CreatedAt <$> posted (work (intTask "B" noTimeout [] (λ _, ok 1))).1 = [100]).
Proof. repeat split. Qed.

(** ** The run-level executor *)

Section RunLevel.
Context {sorter : SliceSort}.
Variable Parse : string → Pipeline + error.

(** [executeRun] never asks for a retry. *)
Lemma executeRun_retry r ctx txdb spec pipelineInput meta w :
  (executeRun Parse r ctx txdb spec pipelineInput meta w).1.1.2 = false.
Proof.
  unfold executeRun. run_M.
  destruct (Parse (DotDagSource spec)) as [pipeline|err]; [|done].
  destruct (forM _ _ _) as [tasks w1].
  destruct (dispatch _ _ _ _) as [s w2]. done.
Qed.

(** One attempt that does not ask for a retry ends the loop of
    [ExecuteRun]. *)
Lemma ExecuteRun_with_no_retry attempt spec w :
  (attempt w).1.1.2 = false →
  ExecuteRun_with Parse attempt spec w =
    let '(run, trrs, _, err, w') := attempt w in (run, trrs, err, w').
Proof.
  unfold ExecuteRun_with, numPanicRetries. cbn [retryLoop]. run_M.
  destruct (attempt w) as [[[[run trrs] retry] err] w']. simpl. by intros ->.
Qed.

(** When [executeRun] cannot parse the DAG. *)
Lemma executeRun_parse_error r ctx txdb spec pipelineInput meta w err :
  Parse (DotDagSource spec) = inr err →
  executeRun Parse r ctx txdb spec pipelineInput meta w =
    ({| run_ID := 0; run_PipelineSpecID := ID spec; run_CreatedAt := now w;
        run_FinishedAt := None; run_Outputs := zeroJSONSerializable;
        run_Errors := [] |}, [], false, Some err, tick w).
Proof. intros Hp. unfold executeRun. run_M. by rewrite Hp. Qed.

(** The loop over the tasks in [panickedRunResults]. *)
Lemma panicked_trrs (f : Time) tasks w :
  let loop :=
    forM (λ task, finished ← time_Now;
                  mret {| trr_Task := task; trr_CreatedAt := f;
                          trr_Result := {| Value := anyNil; Error := Some ErrRunPanicked |};
                          trr_FinishedAt := finished |}) tasks w in
  trr_Task <$> loop.1 = tasks ∧
  Forall (λ trr, trr_Result trr = {| Value := anyNil; Error := Some ErrRunPanicked |}) loop.1 ∧
  w_heap loop.2 = w_heap w ∧ w_trace loop.2 = w_trace w.
Proof.
  revert w. induction tasks as [|t tasks IH]; intros w; [done|].
  cbn [forM]. rewrite !M_bind_eq, !M_ret_eq, !time_Now_eq. cbn [fst snd].
  destruct (IH (tick w)) as (Ht & Hf & Hh & Htr).
  split_and!; [simpl; by f_equal|by constructor|done..].
Qed.

Lemma panickedRunResults_ok spec p w :
  Spec_Pipeline Parse spec = inl p →
  ∃ run trrs w',
    panickedRunResults Parse spec w = (run, trrs, None, w') ∧
    trr_Task <$> trrs = Tasks p ∧
    Forall (λ trr, trr_Result trr = {| Value := anyNil; Error := Some ErrRunPanicked |}) trrs.
Proof.
  intros Hp. unfold panickedRunResults.
  repeat (rewrite M_bind_eq; cbv beta). rewrite Hp.
  repeat (rewrite M_bind_eq; cbv beta).
  match goal with |- context [forM ?f ?l ?w0] =>
    destruct (panicked_trrs (time_Now (alloc (ObjTime (time_Now w).1) (time_Now w).2).2).1 l w0)
      as (Ht & Hf & _) end.
  do 3 eexists. split; [reflexivity|]. split; [exact Ht|exact Hf].
Qed.

(** The attempts the loop makes while each asks for a retry. *)
Lemma retryLoop_all_retry attempt remaining i last w :
  (∀ w0, (attempt w0).1.1.2 = true) →
  ∃ last', retryLoop attempt remaining i last w =
             ((remaining + i)%nat, last', failures attempt remaining i w).
Proof.
  intros Hretry. revert i last w. induction remaining as [|n IH]; intros i last w.
  - by exists last.
  - cbn [retryLoop failures]. rewrite M_bind_eq. pose proof (Hretry w) as Hw.
    unfold failed, traced.
    destruct (attempt w) as [[[[run trrs] retry] err] w']. simpl in Hw. subst retry.
    cbn [fst snd]. rewrite M_bind_eq.
    destruct (IH (S i) (run, trrs, err) (emit (EvSleep i) w').2) as [last' ->].
    exists last'. f_equal. f_equal. lia.
Qed.

Lemma ExecuteRun_with_exhausted attempt spec w :
  (∀ w0, (attempt w0).1.1.2 = true) →
  ExecuteRun_with Parse attempt spec w =
    panickedRunResults Parse spec (failures attempt numPanicRetries 0 w).
Proof.
  intros Hretry. unfold ExecuteRun_with. rewrite M_bind_eq.
  destruct (retryLoop_all_retry attempt numPanicRetries 0 (zeroRun, [], None) w Hretry)
    as [last' ->].
  cbn [fst snd]. by rewrite Nat.add_0_r, bool_decide_eq_true_2.
Qed.

(** The loop never makes more than [numPanicRetries] attempts: its counter
    ends at most there, and the loop ends at the first attempt that does
    not ask for a retry. *)
Lemma retryLoop_bound attempt remaining i last w :
  (i ≤ (retryLoop attempt remaining i last w).1.1 ≤ remaining + i)%nat.
Proof.
  revert i last w. induction remaining as [|n IH]; intros i last w.
  - simpl. lia.
  - cbn [retryLoop]. rewrite M_bind_eq.
    destruct (attempt w) as [[[[run trrs] [|]] err] w']; cbn [fst snd].
    + rewrite M_bind_eq.
      specialize (IH (S i) (run, trrs, err) (emit (EvSleep i) w').2). lia.
    + simpl. lia.
Qed.

(** The synthesized run points its [FinishedAt] at its [CreatedAt]. *)
Lemma panickedRunResults_run spec w :
  let out := panickedRunResults Parse spec w in
  run_PipelineSpecID out.1.1.1 = ID spec ∧
  run_CreatedAt out.1.1.1 = now w ∧
  run_FinishedAt out.1.1.1 = Some (length (w_heap w)) ∧
  w_heap out.2 = w_heap w ++ [ObjTime (now w)].
Proof.
  unfold panickedRunResults.
  repeat (rewrite M_bind_eq; cbv beta).
  destruct (Spec_Pipeline Parse spec) as [p|err]; [|done].
  repeat (rewrite M_bind_eq; cbv beta).
  match goal with |- context [forM ?f ?l ?w0] =>
    destruct (panicked_trrs (time_Now (alloc (ObjTime (time_Now w).1) (time_Now w).2).2).1 l w0)
      as (_ & _ & Hh & _) end.
  rewrite M_ret_eq. split_and!; [done..|].
  etrans; [exact Hh|done].
Qed.

End RunLevel.

(** C1. When every attempt asks for a retry, [ExecuteRun] makes exactly
    five attempts, each followed by its sleep, and then returns the run
    synthesized by [panickedRunResults]: it has one result per task of the
    parsed DAG, in the DAG's order, each with the error [ErrRunPanicked]
    and a nil value, and no top-level error. *)
Theorem retries_exhausted (Parse : string → Pipeline + error)
    (attempt : M (Run * TaskRunResults * bool * option error)) (spec : Spec)
    (p : Pipeline) (w : World) :
  (∀ w0, (attempt w0).1.1.2 = true) →
  Spec_Pipeline Parse spec = inl p →
  let w5 := failed attempt 4 (failed attempt 3 (failed attempt 2
              (failed attempt 1 (failed attempt 0 w)))) in
  ExecuteRun_with Parse attempt spec w = panickedRunResults Parse spec w5 ∧
  ∃ run trrs w',
    ExecuteRun_with Parse attempt spec w = (run, trrs, None, w') ∧
    trr_Task <$> trrs = Tasks p ∧
    Forall (λ trr, trr_Result trr = {| Value := anyNil; Error := Some ErrRunPanicked |}) trrs.
Proof.
  intros Hretry Hp w5.
  rewrite (ExecuteRun_with_exhausted Parse attempt spec w Hretry).
  split; [reflexivity|].
  apply (panickedRunResults_ok Parse spec p), Hp.
Qed.

Lemma retries_exhausted_witness :
  let Parse := exampleParse (inl diamond) in
  let w5 := failed alwaysRetry 4 (failed alwaysRetry 3 (failed alwaysRetry 2
              (failed alwaysRetry 1 (failed alwaysRetry 0 exampleWorld)))) in
  ExecuteRun_with Parse alwaysRetry (exampleSpec 0) exampleWorld
    = panickedRunResults Parse (exampleSpec 0) w5 ∧
  ∃ run trrs w',
    ExecuteRun_with Parse alwaysRetry (exampleSpec 0) exampleWorld
      = (run, trrs, None, w') ∧
    trr_Task <$> trrs = Tasks diamond ∧
    Forall (λ trr, trr_Result trr = {| Value := anyNil; Error := Some ErrRunPanicked |}) trrs.
Proof.
  intros Parse.
  exact (retries_exhausted Parse alwaysRetry (exampleSpec 0) diamond exampleWorld
           (λ _, eq_refl) eq_refl).
Defined.

Example retries_exhausted_sleeps :
  w_trace (ExecuteRun_with (exampleParse (inl diamond)) alwaysRetry (exampleSpec 0)
             exampleWorld).2
  = [EvSleep 0; EvSleep 1; EvSleep 2; EvSleep 3; EvSleep 4].
Proof. reflexivity. Qed.

(** C2. [executeRun] returns [retry = false] on both of its return paths,
    for every input; so the loop of [ExecuteRun] runs [executeRun] once
    and returns what it returned, and the synthesis of a panicked run is
    not reached. *)
Theorem executeRun_never_retries {sorter : SliceSort} (Parse : string → Pipeline + error)
    (r : runner) (ctx : Context) (spec : Spec) (pipelineInput : any)
    (meta : JSONSerializable) (w : World) :
  (∀ txdb, (executeRun Parse r ctx txdb spec pipelineInput meta w).1.1.2 = false) ∧
  ExecuteRun Parse r ctx spec pipelineInput meta w =
    let '(run, trrs, _, err, w') :=
      executeRun Parse r ctx (orm_DB (orm r)) spec pipelineInput meta w in
    (run, trrs, err, w').
Proof.
  split.
  - intros txdb. apply executeRun_retry.
  - apply ExecuteRun_with_no_retry, executeRun_retry.
Qed.

(** C8. The run synthesized by [panickedRunResults] has a [FinishedAt]
    that points at a time equal to its [CreatedAt], and its
    [PipelineSpecID] is the spec's [ID]. *)
Theorem panicked_run_FinishedAt (Parse : string → Pipeline + error) (spec : Spec)
    (w : World) :
  let '(run, trrs, err, w') := panickedRunResults Parse spec w in
  deref_Time w' (run_FinishedAt run) = Some (run_CreatedAt run) ∧
  run_PipelineSpecID run = ID spec.
Proof.
  pose proof (panickedRunResults_run Parse spec w) as H.
  destruct (panickedRunResults Parse spec w) as [[[run trrs] err] w'].
  simpl in H. destruct H as (Hid & Hc & Hf & Hh).
  split; [|done]. rewrite Hf, Hc. unfold deref_Time, deref. rewrite Hh.
  by rewrite lookup_app_r, Nat.sub_diag.
Qed.

Example panicked_run_FinishedAt_diamond :
  let '(run, trrs, err, w') :=
    ExecuteRun_with (exampleParse (inl diamond)) alwaysRetry (exampleSpec 0)
      exampleWorld in
  run_CreatedAt run = 100 ∧ run_FinishedAt run = Some 0%nat ∧
  w_heap w' = [ObjTime 100] ∧ run_PipelineSpecID run = 42 ∧
  run_Errors run = [Some ErrRunPanicked] ∧
  trr_CreatedAt <$> trrs = [101; 101; 101; 101] ∧
  trr_FinishedAt <$> trrs = [102; 103; 104; 105].
Proof. vm_compute. repeat split. Qed.

(** C9. When the DAG source does not parse, [ExecuteRun] returns the
    parse error as it is, no results, and a run without [FinishedAt], with
    zero outputs and no errors; the clock was read once and nothing else
    happened: no event (no task primed, no scheduler, no worker) and no
    allocation. *)
Theorem parse_error_returned {sorter : SliceSort} (Parse : string → Pipeline + error)
    (r : runner) (ctx : Context) (spec : Spec) (pipelineInput : any)
    (meta : JSONSerializable) (w : World) (err : error) :
  Parse (DotDagSource spec) = inr err →
  ExecuteRun Parse r ctx spec pipelineInput meta w =
    ({| run_ID := 0; run_PipelineSpecID := ID spec; run_CreatedAt := now w;
        run_FinishedAt := None; run_Outputs := zeroJSONSerializable;
        run_Errors := [] |}, [], Some err, tick w).
Proof.
  intros Hp. unfold ExecuteRun.
  rewrite ExecuteRun_with_no_retry by apply executeRun_retry.
  by rewrite (executeRun_parse_error Parse r ctx _ spec pipelineInput meta w err Hp).
Qed.

Lemma parse_error_returned_witness :
  ExecuteRun (sorter := insertionSliceSort) (exampleParse (inr parseError))
    (exampleRunner false) context_Background (exampleSpec 0) (anyInt 5)
    zeroJSONSerializable exampleWorld =
    ({| run_ID := 0; run_PipelineSpecID := 42; run_CreatedAt := 100;
        run_FinishedAt := None; run_Outputs := zeroJSONSerializable;
        run_Errors := [] |}, [], Some parseError, tick exampleWorld).
Proof.
  exact (parse_error_returned (sorter := insertionSliceSort)
           (exampleParse (inr parseError)) (exampleRunner false) context_Background
           (exampleSpec 0) (anyInt 5) zeroJSONSerializable exampleWorld parseError
           eq_refl).
Defined.

(** C10. When [ExecuteRun] succeeds and [InsertFinishedRun] fails,
    [ExecuteAndInsertFinishedRun] returns the final result of the results
    [ExecuteRun] returned, with the ORM's error wrapped; when [ExecuteRun]
    fails, it returns the zero final result with that error wrapped, and
    the ORM is not called. *)
Theorem insert_failure_keeps_final_result {sorter : SliceSort}
    (Parse : string → Pipeline + error) (r : runner) (ctx : Context) (spec : Spec)
    (pipelineInput : any) (meta : JSONSerializable) (saveSuccessfulTaskRuns : bool)
    (w : World) :
  (∀ run trrs w1 runID err w2,
     ExecuteRun Parse r ctx spec pipelineInput meta w = (run, trrs, None, w1) →
     orm_InsertFinishedRun (orm r) (orm_DB (orm r)) run trrs saveSuccessfulTaskRuns
       (traced w1 (EvInsert run (length trrs))) = (runID, Some err, w2) →
     ExecuteAndInsertFinishedRun Parse r ctx spec pipelineInput meta
       saveSuccessfulTaskRuns w =
       (runID, FinalResult_ trrs,
        Some (errors_Wrapf err "error inserting finished results for spec ID %v" (ID spec)),
        w2)) ∧
  (∀ run trrs err w1,
     ExecuteRun Parse r ctx spec pipelineInput meta w = (run, trrs, Some err, w1) →
     ExecuteAndInsertFinishedRun Parse r ctx spec pipelineInput meta
       saveSuccessfulTaskRuns w =
       (run_ID run, zeroFinalResult,
        Some (errors_Wrapf err "error executing run for spec ID %v" (ID spec)),
        w1)).
Proof.
  split.
  - intros run trrs w1 runID err w2 Hrun Hins.
    unfold ExecuteAndInsertFinishedRun. rewrite M_bind_eq, Hrun. cbn [fst snd].
    rewrite M_bind_eq. cbn [fst snd emit]. rewrite M_bind_eq.
    unfold traced in Hins. by rewrite Hins.
  - intros run trrs err w1 Hrun.
    unfold ExecuteAndInsertFinishedRun. rewrite M_bind_eq, Hrun. done.
Qed.

Lemma insert_failure_keeps_final_result_witness :
  (ExecuteAndInsertFinishedRun (sorter := insertionSliceSort) (exampleParse (inl diamond))
     (exampleRunner true) context_Background (exampleSpec 0) (anyInt 5)
     zeroJSONSerializable true exampleWorld).1
  = (0, {| fr_Outputs := [anyInt 2]; fr_Errors := [None] |},
     Some (errors_Wrapf (errors_New "insert failed")
             "error inserting finished results for spec ID %v" 42)) ∧
  ExecuteAndInsertFinishedRun (sorter := insertionSliceSort)
    (exampleParse (inr parseError)) (exampleRunner true) context_Background
    (exampleSpec 0) (anyInt 5) zeroJSONSerializable true exampleWorld
  = (0, zeroFinalResult,
     Some (errors_Wrapf parseError "error executing run for spec ID %v" 42),
     tick exampleWorld).
Proof.
  split.
  - destruct (insert_failure_keeps_final_result (sorter := insertionSliceSort)
      (exampleParse (inl diamond)) (exampleRunner true) context_Background
      (exampleSpec 0) (anyInt 5) zeroJSONSerializable true exampleWorld) as [H _].
    erewrite H; [| vm_compute; reflexivity | vm_compute; reflexivity].
    vm_compute. reflexivity.
  - destruct (insert_failure_keeps_final_result (sorter := insertionSliceSort)
      (exampleParse (inr parseError)) (exampleRunner true) context_Background
      (exampleSpec 0) (anyInt 5) zeroJSONSerializable true exampleWorld) as [_ H].
    erewrite H; [| vm_compute; reflexivity].
    vm_compute. reflexivity.
Defined.

(** * Further properties of the runner *)

(** ** Worlds only move forward *)

Lemma advances_refl w : advances w w.
Proof. by split. Qed.

Lemma advances_trans w1 w2 w3 : advances w1 w2 → advances w2 w3 → advances w1 w3.
Proof. intros [Hc1 Hr1] [Hc2 Hr2]. split; [congruence|lia]. Qed.

Lemma advances_tick w : advances w (tick w).
Proof. split; simpl; [done|lia]. Qed.

Lemma advances_traced w e : advances w (traced w e).
Proof. by split. Qed.

Lemma advances_alloc o w : advances w (alloc o w).2.
Proof. by split. Qed.

Lemma monotone_advances w w' :
  monotone_clock w → advances w w' → monotone_clock w' ∧ now w ≤ now w'.
Proof.
  intros Hm [Hc Hr]. unfold monotone_clock, now. rewrite Hc. split; [done|by apply Hm].
Qed.

Section Forward.
Context {sorter : SliceSort}.

Lemma advances_taskContext r ctx spec m w :
  advances w (taskContext r ctx spec m w).2.
Proof.
  rewrite taskContext_eq. destruct (TaskTimeout (task m)) as [d [|]].
  - apply advances_tick.
  - destruct (decide _); [apply advances_refl|apply advances_tick].
Qed.

Lemma advances_executeTaskRun r ctx spec m meta w :
  advances w (executeTaskRun r ctx spec m meta w).2.
Proof.
  rewrite executeTaskRun_eq. unfold passedContext.
  pose proof (advances_taskContext r ctx spec m (tick w)) as H1.
  destruct (taskContext r ctx spec m (tick w)) as [ctx' w1]. simpl in *.
  assert (advances w (traced w1 (EvTaskRun (DotID (task m)) ctx' (inputsSorted m)))) as H2.
  { eapply advances_trans; [apply advances_tick|].
    eapply advances_trans; [exact H1|apply advances_traced]. }
  destruct (Task_Run _ _ _ _ _); simpl; [|done].
  eapply advances_trans; [exact H2|apply advances_tick].
Qed.

Lemma advances_worker r ctx spec meta m w :
  advances w (worker r ctx spec meta m w).2.
Proof.
  rewrite worker_eq.
  pose proof (advances_executeTaskRun r ctx spec m meta w) as H.
  destruct (executeTaskRun r ctx spec m meta w) as [[res|v] w1]; simpl in *; [done|].
  eapply advances_trans; [exact H|apply advances_tick].
Qed.

Lemma advances_dispatch turns (work : memoryTaskRun → M Goroutine) s w :
  (∀ m w0, advances w0 (work m w0).2) →
  advances w (dispatch turns work s w).2.
Proof.
  intros Hwork. revert s w. induction turns as [|turns IH]; intros s w.
  - apply advances_refl.
  - cbn [dispatch]. destruct (s_ready s) as [|t ready']; [apply advances_refl|].
    rewrite !M_bind_eq.
    eapply advances_trans; [|apply IH].
    eapply advances_trans; [|apply Hwork]. by split.
Qed.

Lemma advances_inject r txdb mu t w : advances w (inject r txdb mu t w).2.
Proof.
  unfold inject. repeat case_match; rewrite ?M_bind_eq; by split.
Qed.

Lemma advances_forM {A B} (f : A → M B) xs w :
  (∀ x w0, advances w0 (f x w0).2) → advances w (forM f xs w).2.
Proof.
  intros Hf. revert w. induction xs as [|x xs IH]; intros w; [apply advances_refl|].
  cbn [forM]. rewrite !M_bind_eq, M_ret_eq. cbn [snd].
  eapply advances_trans; [apply Hf|apply IH].
Qed.

End Forward.

(** ** Workers and task results *)

(** X1. Whatever its task does, a worker sends exactly one result, for
    the task of its descriptor, and lets no panic out.  The result it
    sends is the one its call of [Task.Run] returned, on the context
    chosen by [executeTaskRun] and the sorted inputs, or
    [{nil, panicError v}] when that call panicked with [v]; that call is
    the only call of [Task.Run] the worker records. *)
Theorem worker_one_call_one_result {sorter : SliceSort} (r : runner) (ctx : Context)
    (spec : Spec) (meta : JSONSerializable) (m : memoryTaskRun) (w : World) :
  ∃ ctx' trr,
    (worker r ctx spec meta m w).1 = {| posted := [trr]; escaped := None |} ∧
    trr_Task trr = task m ∧
    trr_Result trr =
      match Task_Run (task m) ctx' (vars m) meta (inputsSorted m) with
      | Returns result => result
      | Panics v => {| Value := anyNil; Error := Some (panicError v) |}
      end ∧
    w_trace (worker r ctx spec meta m w).2 =
      w_trace w ++ [EvTaskRun (DotID (task m)) ctx' (inputsSorted m)].
Proof.
  exists (passedContext r ctx spec m w).1.
  pose proof (executeTaskRun_trace r ctx spec m meta w) as Htr.
  rewrite worker_eq. rewrite executeTaskRun_eq in Htr |- *.
  destruct (passedContext r ctx spec m w) as [ctx' w1]. cbn [fst] in *.
  destruct (Task_Run _ _ _ _ _) as [res|v]; cbn [fst snd] in *;
    eexists; (split; [reflexivity|]); by split_and!.
Qed.

(** X2. When the task returns, [executeTaskRun] yields a result for that
    task that carries what [Task.Run] returned, untouched, with
    [CreatedAt] the time read on entry; on a clock that does not run
    backwards [CreatedAt <= FinishedAt]. *)
Theorem task_result_timestamps {sorter : SliceSort} (r : runner) (ctx : Context)
    (spec : Spec) (m : memoryTaskRun) (meta : JSONSerializable) (w : World)
    (trr : TaskRunResult) :
  monotone_clock w →
  (executeTaskRun r ctx spec m meta w).1 = Returns trr →
  trr_Task trr = task m ∧
  Task_Run (task m) (passedContext r ctx spec m w).1 (vars m) meta (inputsSorted m)
    = Returns (trr_Result trr) ∧
  trr_CreatedAt trr = now w ∧
  trr_CreatedAt trr ≤ trr_FinishedAt trr.
Proof.
  intros Hm. rewrite executeTaskRun_eq. unfold passedContext.
  pose proof (advances_taskContext r ctx spec m (tick w)) as H1.
  destruct (taskContext r ctx spec m (tick w)) as [ctx' w1]. simpl in *.
  destruct (Task_Run _ _ _ _ _) as [res|v] eqn:Hrun; simpl; [|done].
  intros [= <-]. simpl. split_and!; [done..|].
  assert (advances w (traced w1 (EvTaskRun (DotID (task m)) ctx' (inputsSorted m)))) as H2.
  { eapply advances_trans; [apply advances_tick|].
    eapply advances_trans; [exact H1|apply advances_traced]. }
  by destruct (monotone_advances _ _ Hm H2).
Qed.

Lemma exampleWorld_monotone : monotone_clock exampleWorld.
Proof. intros i j Hij. simpl. lia. Qed.

Lemma task_result_timestamps_witness :
  let m := {| task := intTask "t" (Millisecond, true) [] (λ _, ok 7);
              inputs := []; vars := [] |} in
  let trr := {| trr_Task := task m; trr_Result := {| Value := anyInt 7; Error := None |};
                trr_CreatedAt := 100; trr_FinishedAt := 102 |} in
  trr_Task trr = task m ∧
  Task_Run (task m)
    (passedContext (exampleRunner false) context_Background (exampleSpec 0) m
       exampleWorld).1 (vars m) zeroJSONSerializable
    (inputsSorted (sorter := insertionSliceSort) m) = Returns (trr_Result trr) ∧
  trr_CreatedAt trr = now exampleWorld ∧
  trr_CreatedAt trr ≤ trr_FinishedAt trr.
Proof.
  intros m trr.
  apply (task_result_timestamps (sorter := insertionSliceSort) (exampleRunner false)
           context_Background (exampleSpec 0) m zeroJSONSerializable exampleWorld trr).
  - exact exampleWorld_monotone.
  - vm_compute. reflexivity.
Defined.

(** ** The retry loop *)

Section RetryLoop.
Variable Parse : string → Pipeline + error.

Lemma retryLoop_first_success attempt k remaining i last w :
  (k < remaining)%nat →
  (∀ j, (j < k)%nat → (attempt (failures attempt j i w)).1.1.2 = true) →
  (attempt (failures attempt k i w)).1.1.2 = false →
  retryLoop attempt remaining i last w =
    let '(run, trrs, _, err, w') := attempt (failures attempt k i w) in
    ((k + i)%nat, (run, trrs, err), w').
Proof.
  revert remaining i last w. induction k as [|k IH]; intros remaining i last w Hlt Hretry Hok.
  - destruct remaining as [|remaining]; [lia|]. cbn [retryLoop failures] in *.
    rewrite M_bind_eq.
    destruct (attempt w) as [[[[run trrs] retry] err] w']. simpl in Hok. by subst.
  - destruct remaining as [|remaining]; [lia|]. cbn [retryLoop failures] in Hok |- *.
    rewrite M_bind_eq. pose proof (Hretry 0%nat ltac:(lia)) as H0. cbn [failures] in H0.
    assert (∀ j, (j < k)%nat →
              (attempt (failures attempt j (S i) (failed attempt i w))).1.1.2 = true)
      as Hretry' by (intros j Hj; apply (Hretry (S j)); lia).
    unfold failed in Hok, Hretry' |- *.
    destruct (attempt w) as [[[[run trrs] retry] err] w']. simpl in H0. subst retry.
    cbn [fst snd] in *. rewrite M_bind_eq. cbv beta.
    change (emit (EvSleep i) w').2 with (traced w' (EvSleep i)).
    rewrite (IH remaining (S i) (run, trrs, err) (traced w' (EvSleep i))
               ltac:(lia) Hretry' Hok).
    destruct (attempt _) as [[[[run' trrs'] retry'] err'] w'']. do 2 f_equal. lia.
Qed.

End RetryLoop.

(** X3. The loop of [ExecuteRun] ends at the first attempt that does not
    ask for a retry: after [k < 5] attempts that did, each followed by its
    sleep, it returns the run, the results and the error of attempt
    [k + 1] as they are, and synthesizes nothing. *)
Theorem first_success_returned (Parse : string → Pipeline + error)
    (attempt : M (Run * TaskRunResults * bool * option error)) (spec : Spec)
    (k : nat) (w : World) :
  (k < numPanicRetries)%nat →
  (∀ j, (j < k)%nat → (attempt (failures attempt j 0 w)).1.1.2 = true) →
  (attempt (failures attempt k 0 w)).1.1.2 = false →
  ExecuteRun_with Parse attempt spec w =
    let '(run, trrs, _, err, w') := attempt (failures attempt k 0 w) in
    (run, trrs, err, w').
Proof.
  intros Hk Hretry Hok. unfold ExecuteRun_with. rewrite M_bind_eq.
  rewrite (retryLoop_first_success attempt k numPanicRetries 0 _ w Hk Hretry Hok).
  destruct (attempt _) as [[[[run trrs] retry] err] w']. cbn [fst snd].
  rewrite bool_decide_eq_false_2 by lia. done.
Qed.

Lemma first_success_returned_witness :
  ExecuteRun_with (exampleParse (inl diamond)) (retryUntil 102) (exampleSpec 0)
    exampleWorld =
    let '(run, trrs, _, err, w') :=
      retryUntil 102 (failures (retryUntil 102) 2 0 exampleWorld) in
    (run, trrs, err, w').
Proof.
  apply (first_success_returned (exampleParse (inl diamond)) (retryUntil 102)
           (exampleSpec 0) 2 exampleWorld).
  - unfold numPanicRetries. lia.
  - intros j Hj. destruct j as [|[|j]]; [vm_compute; reflexivity..|lia].
  - vm_compute. reflexivity.
Defined.

Example first_success_trace :
  w_trace (ExecuteRun_with (exampleParse (inl diamond)) (retryUntil 102) (exampleSpec 0)
             exampleWorld).2 = [EvSleep 0; EvSleep 1].
Proof. vm_compute. reflexivity. Qed.

(** ** The synthesized run *)

Section Panicked.
Variable Parse : string → Pipeline + error.

Lemma panickedRunResults_parse_error spec err w :
  Spec_Pipeline Parse spec = inr err →
  panickedRunResults Parse spec w =
    ({| run_ID := 0; run_PipelineSpecID := ID spec; run_CreatedAt := now w;
        run_FinishedAt := Some (length (w_heap w));
        run_Outputs := zeroJSONSerializable; run_Errors := [] |},
     [], Some err, (alloc (ObjTime (now w)) (tick w)).2).
Proof.
  intros Hp. unfold panickedRunResults. repeat (rewrite M_bind_eq; cbv beta).
  by rewrite Hp.
Qed.

(** The timestamps of the loop over the tasks. *)
Lemma panicked_trrs_clock (f : Time) tasks w :
  let loop :=
    forM (λ task, finished ← time_Now;
                  mret {| trr_Task := task; trr_CreatedAt := f;
                          trr_Result := {| Value := anyNil; Error := Some ErrRunPanicked |};
                          trr_FinishedAt := finished |}) tasks w in
  Forall (λ trr, trr_CreatedAt trr = f ∧
                 ∃ i, (w_reads w ≤ i)%nat ∧ trr_FinishedAt trr = w_clock w i) loop.1.
Proof.
  revert w. induction tasks as [|t tasks IH]; intros w; [by constructor|].
  cbn [forM]. rewrite !M_bind_eq, !M_ret_eq, !time_Now_eq. cbn [fst snd].
  constructor.
  - simpl. split; [done|]. exists (w_reads w). split; [lia|done].
  - eapply Forall_impl; [apply (IH (tick w))|].
    intros trr [Hc (i & Hi & Hf)]. split; [done|]. exists i. simpl in *. split; [lia|done].
Qed.

End Panicked.

(** X4. When the retries are exhausted and the DAG of the spec does not
    parse either, [ExecuteRun] returns the parse error of
    [panickedRunResults] with no results; the run it returns still has the
    spec's id, a [FinishedAt] equal to its [CreatedAt], and no outputs or
    errors. *)
Theorem exhausted_unparsable (Parse : string → Pipeline + error)
    (attempt : M (Run * TaskRunResults * bool * option error)) (spec : Spec)
    (err : error) (w : World) :
  (∀ w0, (attempt w0).1.1.2 = true) →
  Spec_Pipeline Parse spec = inr err →
  ∃ run w',
    ExecuteRun_with Parse attempt spec w = (run, [], Some err, w') ∧
    run_PipelineSpecID run = ID spec ∧
    deref_Time w' (run_FinishedAt run) = Some (run_CreatedAt run) ∧
    run_Outputs run = zeroJSONSerializable ∧ run_Errors run = [].
Proof.
  intros Hretry Hp. rewrite (ExecuteRun_with_exhausted Parse attempt spec w Hretry).
  rewrite (panickedRunResults_parse_error Parse spec err _ Hp).
  do 2 eexists. split; [reflexivity|]. split_and!; try done.
  unfold deref_Time, deref. simpl. by rewrite lookup_app_r, Nat.sub_diag.
Qed.

Lemma exhausted_unparsable_witness :
  ∃ run w',
    ExecuteRun_with (exampleParse (inr parseError)) alwaysRetry (exampleSpec 0)
      exampleWorld = (run, [], Some parseError, w') ∧
    run_PipelineSpecID run = 42 ∧
    deref_Time w' (run_FinishedAt run) = Some (run_CreatedAt run) ∧
    run_Outputs run = zeroJSONSerializable ∧ run_Errors run = [].
Proof.
  exact (exhausted_unparsable (exampleParse (inr parseError)) alwaysRetry
           (exampleSpec 0) parseError exampleWorld (λ _, eq_refl) eq_refl).
Defined.

(** X5. All results of a synthesized run share one [CreatedAt], read after
    the run's own; on a clock that does not run backwards the run's
    [CreatedAt] is at most that time, which is at most every result's
    [FinishedAt]. *)
Theorem panicked_results_timestamps (Parse : string → Pipeline + error) (spec : Spec)
    (p : Pipeline) (w : World) :
  monotone_clock w →
  Spec_Pipeline Parse spec = inl p →
  let '(run, trrs, err, w') := panickedRunResults Parse spec w in
  ∃ f, run_CreatedAt run ≤ f ∧
       Forall (λ trr, trr_CreatedAt trr = f ∧ f ≤ trr_FinishedAt trr) trrs.
Proof.
  intros Hm Hp. unfold panickedRunResults.
  repeat (rewrite M_bind_eq; cbv beta). rewrite Hp.
  repeat (rewrite M_bind_eq; cbv beta). rewrite M_ret_eq.
  match goal with |- context [forM ?f ?l ?w0] =>
    pose proof (panicked_trrs_clock
                  (time_Now (alloc (ObjTime (time_Now w).1) (time_Now w).2).2).1 l w0) as H;
    cbv zeta in H; destruct (forM f l w0) as [trrs w'] end.
  simpl in *. exists (w_clock w (S (w_reads w))). split; [apply Hm; lia|].
  eapply Forall_impl; [exact H|]. intros trr [Hc (i & Hi & ->)].
  split; [done|]. apply Hm. lia.
Qed.

Lemma panicked_results_timestamps_witness :
  let '(run, trrs, err, w') :=
    panickedRunResults (exampleParse (inl diamond)) (exampleSpec 0) exampleWorld in
  ∃ f, run_CreatedAt run ≤ f ∧
       Forall (λ trr, trr_CreatedAt trr = f ∧ f ≤ trr_FinishedAt trr) trrs.
Proof.
  exact (panicked_results_timestamps (exampleParse (inl diamond)) (exampleSpec 0)
           diamond exampleWorld exampleWorld_monotone eq_refl).
Defined.

(** ** A run that parses *)

Section Success.
Context {sorter : SliceSort}.
Variable Parse : string → Pipeline + error.

(** The normal return of [executeRun]. *)
Lemma executeRun_success r ctx txdb spec pipelineInput meta w p :
  Parse (DotDagSource spec) = inl p →
  ∃ trrs w2,
    advances w w2 ∧
    executeRun Parse r ctx txdb spec pipelineInput meta w =
      ({| run_ID := 0; run_PipelineSpecID := ID spec; run_CreatedAt := now w;
          run_FinishedAt := Some (length (w_heap w2));
          run_Outputs := OutputsDB (FinalResult_ trrs);
          run_Errors := ErrorsDB (FinalResult_ trrs) |},
       trrs, false, None, (alloc (ObjTime (now w2)) (tick w2)).2).
Proof.
  intros Hp. unfold executeRun. rewrite M_bind_eq, Hp, time_Now_eq. cbn [fst snd].
  repeat (rewrite M_bind_eq; cbv beta).
  set (w0 := (alloc ObjMutex (tick w)).2).
  pose proof (advances_forM (inject r txdb (alloc ObjMutex (tick w)).1) (Tasks p) w0
                (advances_inject r txdb _)) as Hinj.
  destruct (forM _ (Tasks p) w0) as [tasks w1]. cbn [fst snd] in *.
  match goal with |- context [dispatch ?n ?f ?s ?w0] =>
    pose proof (advances_dispatch n f s w0 (advances_worker r ctx spec meta)) as Hd;
    destruct (dispatch n f s w0) as [s' w2] end.
  cbn [fst snd] in *. exists (results s'), w2. split; [|done].
  eapply advances_trans; [apply advances_tick|].
  eapply advances_trans; [apply (advances_alloc ObjMutex)|].
  eapply advances_trans; [exact Hinj|].
  eapply advances_trans; [|exact Hd]. by split.
Qed.

(** An [ExecuteRun] without error is one whose DAG parsed. *)
Lemma ExecuteRun_ok_parsed r ctx spec pipelineInput meta w run trrs w1 :
  ExecuteRun Parse r ctx spec pipelineInput meta w = (run, trrs, None, w1) →
  ∃ p, Parse (DotDagSource spec) = inl p.
Proof.
  intros Hrun. destruct (Parse (DotDagSource spec)) as [p|err] eqn:Hp; [by exists p|].
  unfold ExecuteRun in Hrun.
  rewrite ExecuteRun_with_no_retry in Hrun by apply executeRun_retry.
  by rewrite (executeRun_parse_error Parse r ctx _ spec pipelineInput meta w err Hp) in Hrun.
Qed.

Lemma ExecuteRun_success r ctx spec pipelineInput meta w p :
  Parse (DotDagSource spec) = inl p →
  ∃ trrs w2,
    advances w w2 ∧
    ExecuteRun Parse r ctx spec pipelineInput meta w =
      ({| run_ID := 0; run_PipelineSpecID := ID spec; run_CreatedAt := now w;
          run_FinishedAt := Some (length (w_heap w2));
          run_Outputs := OutputsDB (FinalResult_ trrs);
          run_Errors := ErrorsDB (FinalResult_ trrs) |},
       trrs, None, (alloc (ObjTime (now w2)) (tick w2)).2).
Proof.
  intros Hp. unfold ExecuteRun.
  rewrite ExecuteRun_with_no_retry by apply executeRun_retry.
  destruct (executeRun_success r ctx (orm_DB (orm r)) spec pipelineInput meta w p Hp)
    as (trrs & w2 & Hadv & ->).
  by exists trrs, w2.
Qed.

End Success.

(** ** Priming the task instances *)

Lemma inject_primed r txdb mu t w :
  primed r txdb mu t (inject r txdb mu t w).1 ∧
  (inject r txdb mu t w).2 =
    if needs_config t then traced w (EvInject (DotID t)) else w.
Proof.
  unfold inject, primed, needs_config.
  destruct (Type_ t) eqn:Ht; simpl; rewrite ?M_bind_eq; simpl; rewrite ?Ht; done.
Qed.

Lemma forM_inject_primed (r : runner) (txdb : DB) (mu : Loc) (tasks : list Task)
    (w : World) :
  let '(tasks', w') := forM (inject r txdb mu) tasks w in
  Forall2 (primed r txdb mu) tasks tasks' ∧
  w_trace w' = w_trace w ++ ((λ t, EvInject (DotID t)) <$> List.filter needs_config tasks) ∧
  w_heap w' = w_heap w ∧ w_reads w' = w_reads w.
Proof.
  revert w. induction tasks as [|t tasks IH]; intros w.
  - simpl. split_and!; try done. by rewrite app_nil_r.
  - cbn [forM]. rewrite !M_bind_eq, M_ret_eq. cbn [fst snd].
    destruct (inject_primed r txdb mu t w) as [Hp Hw].
    specialize (IH (inject r txdb mu t w).2).
    destruct (forM _ tasks _) as [tasks' w']. cbn [fst snd].
    destruct IH as (Hall & Htr & Hh & Hr). rewrite Hw in Htr, Hh, Hr.
    split; [by constructor|]. rewrite Htr, Hh, Hr. simpl.
    destruct (needs_config t); simpl; [|done].
    by rewrite <-app_assoc.
Qed.

Example priming_example :
  let '(tasks', w') := forM (inject (exampleRunner false) 7%nat 0%nat) exampleTasks
                         exampleWorld in
  (λ t, (DotID t, config t, safeTx t)) <$> tasks' =
    [ ("fetch", Some 3%nat, None);
      ("bridge1", Some 3%nat, Some {| tx := 7%nat; txMu := 0%nat |});
      ("bridge2", Some 3%nat, Some {| tx := 7%nat; txMu := 0%nat |});
      ("parse", None, None) ] ∧
  w_trace w' = [EvInject "fetch"; EvInject "bridge1"; EvInject "bridge2"].
Proof. vm_compute. done. Qed.

(** ** What the scheduler collects *)

Lemma deliver_keeps r s e :
  results (deliver r s e) = results s ∧
  s_pipeline (deliver r s e) = s_pipeline s ∧
  (Forall (λ t, t ∈ Tasks (s_pipeline s)) (s_ready s) →
   Forall (λ t, t ∈ Tasks (s_pipeline s)) (s_ready (deliver r s e))).
Proof.
  unfold deliver. destruct (s_pending s !! e_to e) as [[|[|n]]|]; simpl; try done.
  destruct (find_task (s_pipeline s) (e_to e)) as [t|] eqn:Hf; [|done].
  split_and!; [done..|]. intros Hr. apply Forall_app. split; [done|].
  apply Forall_singleton, list_elem_of_In.
  unfold find_task in Hf. by apply find_some in Hf as [? _].
Qed.

Lemma deliver_all_keeps r es s :
  results (foldl (deliver r) s es) = results s ∧
  s_pipeline (foldl (deliver r) s es) = s_pipeline s ∧
  (Forall (λ t, t ∈ Tasks (s_pipeline s)) (s_ready s) →
   Forall (λ t, t ∈ Tasks (s_pipeline s)) (s_ready (foldl (deliver r) s es))).
Proof.
  revert s. induction es as [|e es IH]; intros s; simpl; [done|].
  destruct (deliver_keeps r s e) as (Hr & Hp & Hk).
  destruct (IH (deliver r s e)) as (Hr' & Hp' & Hk').
  rewrite Hp in Hp', Hk'. split_and!; [congruence..|auto].
Qed.

Lemma absorb_keeps s trr :
  results (absorb s trr) = results s ++ [trr] ∧
  s_pipeline (absorb s trr) = s_pipeline s ∧
  (Forall (λ t, t ∈ Tasks (s_pipeline s)) (s_ready s) →
   Forall (λ t, t ∈ Tasks (s_pipeline s)) (s_ready (absorb s trr))).
Proof.
  destruct (deliver_all_keeps (trr_Result trr) (Outputs (trr_Task trr)) s) as (Hr & Hp & Hk).
  unfold absorb. simpl. by rewrite Hr.
Qed.

Section Collected.
Context {sorter : SliceSort}.
Variable Parse : string → Pipeline + error.

(** The one result of a worker: for its task, finished at a reading of
    the clock made after the worker started. *)
Lemma worker_posted r ctx spec meta m w :
  ∃ trr j,
    (worker r ctx spec meta m w).1 = {| posted := [trr]; escaped := None |} ∧
    trr_Task trr = task m ∧
    (w_reads w < j < w_reads (worker r ctx spec meta m w).2)%nat ∧
    trr_FinishedAt trr = w_clock w j ∧
    w_heap (worker r ctx spec meta m w).2 = w_heap w.
Proof.
  rewrite worker_eq, executeTaskRun_eq. unfold passedContext.
  pose proof (advances_taskContext r ctx spec m (tick w)) as [Hc Hr].
  pose proof (taskContext_trace r ctx spec m (tick w)) as [_ Hh].
  destruct (taskContext r ctx spec m (tick w)) as [ctx' w1]. simpl in *.
  destruct (Task_Run _ _ _ _ _) as [res|v]; simpl;
    eexists _, (w_reads w1); (split; [reflexivity|]); simpl;
    (split_and!; [done|lia|lia|by unfold now; simpl; rewrite Hc|done]).
Qed.

(** The results a dispatch loop adds: one per worker, for tasks of the
    DAG, each finished at a reading made during the loop. *)
Lemma dispatch_collects r ctx spec meta turns s w :
  Forall (λ t, t ∈ Tasks (s_pipeline s)) (s_ready s) →
  ∃ new,
    results (dispatch turns (worker r ctx spec meta) s w).1 = results s ++ new ∧
    Forall (λ trr, trr_Task trr ∈ Tasks (s_pipeline s) ∧
                   ∃ j, (w_reads w < j < w_reads (dispatch turns (worker r ctx spec meta) s w).2)%nat ∧
                        trr_FinishedAt trr = w_clock w j) new ∧
    w_heap (dispatch turns (worker r ctx spec meta) s w).2 = w_heap w.
Proof.
  revert s w. induction turns as [|turns IH]; intros s w Hready.
  - exists []. simpl. by rewrite app_nil_r.
  - cbn [dispatch]. destruct (s_ready s) as [|t ready'] eqn:Hr.
    { exists []. simpl. by rewrite app_nil_r. }
    apply Forall_cons in Hready as [Ht Hready'].
    rewrite !M_bind_eq. cbv beta.
    set (we := (emit (EvSpawn (DotID t)) w).2).
    destruct (worker_posted r ctx spec meta (newMemoryTaskRun s t) we)
      as (trr & j & Hg & Htask & Hj & Hfin & Hheap).
    pose proof (advances_worker r ctx spec meta (newMemoryTaskRun s t) we) as [Hcw Hrw].
    destruct (worker r ctx spec meta (newMemoryTaskRun s t) we) as [g w1]. simpl in *.
    subst g. simpl.
    destruct (absorb_keeps (pop_ready s ready') trr) as (Hres & Hpipe & Hkeep).
    change (s_pipeline (pop_ready s ready')) with (s_pipeline s) in Hpipe, Hkeep.
    change (s_ready (pop_ready s ready')) with ready' in Hkeep.
    change (results (pop_ready s ready')) with (results s) in Hres.
    destruct (IH (absorb (pop_ready s ready') trr) w1) as (new & Hnew & Hall & Hh).
    { rewrite Hpipe. by apply Hkeep. }
    pose proof (advances_dispatch turns (worker r ctx spec meta)
                  (absorb (pop_ready s ready') trr) w1 (advances_worker r ctx spec meta))
      as [_ Hrd].
    exists (trr :: new). split_and!.
    + rewrite Hnew, Hres. by rewrite <-app_assoc.
    + constructor.
      * split; [by rewrite Htask|]. exists j. split; [lia|done].
      * eapply Forall_impl; [exact Hall|]. intros trr' [Hin (j' & Hj' & Hf')].
        rewrite Hpipe in Hin. split; [done|]. exists j'. split; [lia|]. by rewrite Hf', Hcw.
    + by rewrite Hh, Hheap.
Qed.

(** The normal return of [executeRun], with what it collected. *)
Lemma executeRun_collects r ctx txdb spec pipelineInput meta w p :
  Parse (DotDagSource spec) = inl p →
  ∃ tasks' trrs i w',
    executeRun Parse r ctx txdb spec pipelineInput meta w =
      ({| run_ID := 0; run_PipelineSpecID := ID spec; run_CreatedAt := now w;
          run_FinishedAt := Some (S (length (w_heap w)));
          run_Outputs := OutputsDB (FinalResult_ trrs);
          run_Errors := ErrorsDB (FinalResult_ trrs) |},
       trrs, false, None, w') ∧
    Forall2 (primed r txdb (length (w_heap w))) (Tasks p) tasks' ∧
    (w_reads w < i)%nat ∧ w_reads w' = S i ∧
    w_heap w' = w_heap w ++ [ObjMutex; ObjTime (w_clock w i)] ∧
    Forall (λ trr, trr_Task trr ∈ tasks' ∧
                   ∃ j, (w_reads w < j < i)%nat ∧ trr_FinishedAt trr = w_clock w j) trrs.
Proof.
  intros Hp. unfold executeRun. rewrite M_bind_eq, Hp, time_Now_eq. cbn [fst snd].
  repeat (rewrite M_bind_eq; cbv beta).
  set (w0 := (alloc ObjMutex (tick w)).2).
  pose proof (forM_inject_primed r txdb (alloc ObjMutex (tick w)).1 (Tasks p) w0) as Hinj.
  pose proof (advances_forM (inject r txdb (alloc ObjMutex (tick w)).1) (Tasks p) w0
                (advances_inject r txdb _)) as [Hc1 _].
  destruct (forM _ (Tasks p) w0) as [tasks w1]. cbn [fst snd] in *.
  destruct Hinj as (Hall & _ & Hh1 & Hr1). cbn [Tasks].
  set (we := (emit (EvScheduler (length tasks)) w1).2).
  destruct (dispatch_collects r ctx spec meta (length tasks)
              (newScheduler {| Tasks := tasks |} pipelineInput) we)
    as (new & Hnew & Hforall & Hh2).
  { simpl. apply Forall_forall. intros t Ht%list_elem_of_In.
    apply filter_In in Ht as [Ht _]. by apply list_elem_of_In. }
  pose proof (advances_dispatch (length tasks) (worker r ctx spec meta)
                (newScheduler {| Tasks := tasks |} pipelineInput) we
                (advances_worker r ctx spec meta)) as [Hc2 Hr2].
  destruct (dispatch _ _ _ we) as [s' w2]. cbn [fst snd] in *.
  simpl in Hnew. subst new.
  exists tasks, (results s'), (w_reads w2). eexists. split_and!.
  - rewrite M_ret_eq. do 4 f_equal. simpl. rewrite Hh2. simpl. rewrite Hh1. simpl.
    rewrite length_app. simpl. by rewrite Nat.add_1_r.
  - exact Hall.
  - simpl in *. lia.
  - reflexivity.
  - simpl. rewrite Hh2. simpl. rewrite Hh1. simpl. rewrite <-app_assoc. simpl.
    unfold now. rewrite Hc2. simpl. by rewrite Hc1.
  - eapply Forall_impl; [exact Hforall|]. simpl. intros trr [Hin (j & Hj & Hf)].
    split; [done|]. exists j. split; [simpl in *; lia|]. rewrite Hf. simpl. by rewrite Hc1.
Qed.

Lemma ExecuteRun_collects r ctx spec pipelineInput meta w p :
  Parse (DotDagSource spec) = inl p →
  ∃ tasks' trrs i w',
    ExecuteRun Parse r ctx spec pipelineInput meta w =
      ({| run_ID := 0; run_PipelineSpecID := ID spec; run_CreatedAt := now w;
          run_FinishedAt := Some (S (length (w_heap w)));
          run_Outputs := OutputsDB (FinalResult_ trrs);
          run_Errors := ErrorsDB (FinalResult_ trrs) |},
       trrs, None, w') ∧
    Forall2 (primed r (orm_DB (orm r)) (length (w_heap w))) (Tasks p) tasks' ∧
    (w_reads w < i)%nat ∧ w_reads w' = S i ∧
    w_heap w' = w_heap w ++ [ObjMutex; ObjTime (w_clock w i)] ∧
    Forall (λ trr, trr_Task trr ∈ tasks' ∧
                   ∃ j, (w_reads w < j < i)%nat ∧ trr_FinishedAt trr = w_clock w j) trrs.
Proof.
  intros Hp. unfold ExecuteRun.
  rewrite ExecuteRun_with_no_retry by apply executeRun_retry.
  destruct (executeRun_collects r ctx (orm_DB (orm r)) spec pipelineInput meta w p Hp)
    as (tasks' & trrs & i & w' & -> & H).
  by exists tasks', trrs, i, w'.
Qed.

End Collected.

(** X6. When the DAG parses, [ExecuteRun] returns no error and a run for
    the spec, created at the first reading of the clock, whose outputs
    and errors are those of the final result of the very results it
    returns.  Its [FinishedAt] points at the last reading of the clock
    the run makes, later than the reading at which any of the returned
    results finished; on a clock that does not run backwards it is not
    before the run's [CreatedAt] nor before any result's [FinishedAt]. *)
Theorem run_matches_results {sorter : SliceSort} (Parse : string → Pipeline + error)
    (r : runner) (ctx : Context) (spec : Spec) (pipelineInput : any)
    (meta : JSONSerializable) (p : Pipeline) (w : World) :
  monotone_clock w →
  Parse (DotDagSource spec) = inl p →
  let '(run, trrs, err, w') := ExecuteRun Parse r ctx spec pipelineInput meta w in
  err = None ∧
  run_PipelineSpecID run = ID spec ∧
  run_CreatedAt run = now w ∧
  run_Outputs run = OutputsDB (FinalResult_ trrs) ∧
  run_Errors run = ErrorsDB (FinalResult_ trrs) ∧
  ∃ i, w_reads w' = S i ∧ (w_reads w < i)%nat ∧
       deref_Time w' (run_FinishedAt run) = Some (w_clock w i) ∧
       run_CreatedAt run ≤ w_clock w i ∧
       Forall (λ trr, (∃ j, (w_reads w < j < i)%nat ∧ trr_FinishedAt trr = w_clock w j) ∧
                      trr_FinishedAt trr ≤ w_clock w i) trrs.
Proof.
  intros Hm Hp.
  destruct (ExecuteRun_collects Parse r ctx spec pipelineInput meta w p Hp)
    as (tasks' & trrs & i & w' & -> & _ & Hi & Hr & Hh & Hall).
  split_and!; try done. exists i. split_and!; try done.
  - unfold deref_Time, deref. simpl. rewrite Hh.
    rewrite lookup_app_r by lia. by replace (S (length (w_heap w)) - length (w_heap w))%nat
      with 1%nat by lia.
  - simpl. apply Hm. lia.
  - eapply Forall_impl; [exact Hall|]. intros trr [_ (j & Hj & Hf)].
    split; [by exists j|]. rewrite Hf. apply Hm. lia.
Qed.

Lemma run_matches_results_witness :
  let '(run, trrs, err, w') :=
    ExecuteRun (sorter := insertionSliceSort) (exampleParse (inl diamond))
      (exampleRunner false) context_Background (exampleSpec 0) (anyInt 5)
      zeroJSONSerializable exampleWorld in
  err = None ∧
  run_PipelineSpecID run = ID (exampleSpec 0) ∧
  run_CreatedAt run = now exampleWorld ∧
  run_Outputs run = OutputsDB (FinalResult_ trrs) ∧
  run_Errors run = ErrorsDB (FinalResult_ trrs) ∧
  ∃ i, w_reads w' = S i ∧ (w_reads exampleWorld < i)%nat ∧
       deref_Time w' (run_FinishedAt run) = Some (w_clock exampleWorld i) ∧
       run_CreatedAt run ≤ w_clock exampleWorld i ∧
       Forall (λ trr, (∃ j, (w_reads exampleWorld < j < i)%nat ∧
                            trr_FinishedAt trr = w_clock exampleWorld j) ∧
                      trr_FinishedAt trr ≤ w_clock exampleWorld i) trrs.
Proof.
  exact (run_matches_results (sorter := insertionSliceSort) (exampleParse (inl diamond))
           (exampleRunner false) context_Background (exampleSpec 0) (anyInt 5)
           zeroJSONSerializable diamond exampleWorld exampleWorld_monotone eq_refl).
Defined.

Example run_timestamps_diamond :
  let '(run, trrs, err, w') :=
    ExecuteRun (sorter := insertionSliceSort) (exampleParse (inl diamond))
      (exampleRunner false) context_Background (exampleSpec 0) (anyInt 5)
      zeroJSONSerializable exampleWorld in
  run_CreatedAt run = 100 ∧ deref_Time w' (run_FinishedAt run) = Some 110 ∧
  trr_FinishedAt <$> trrs = [102; 104; 106; 109] ∧ w_reads w' = 11%nat.
Proof. vm_compute. done. Qed.

(** ** The run's one mutex *)

(** X7. In a run whose DAG parses, the task of every result returned is
    a task of the DAG, changed by the priming loop in nothing but what
    that loop injects: HTTP tasks got the runner's config; bridge tasks
    got the config and a [SafeTx] of the runner's database handle and a
    mutex; other tasks are as parsed.  The mutex is one and the same for
    all bridge tasks of the run, and it was allocated by this run. *)
Theorem priming_shares_mutex {sorter : SliceSort} (Parse : string → Pipeline + error)
    (r : runner) (ctx : Context) (spec : Spec) (pipelineInput : any)
    (meta : JSONSerializable) (p : Pipeline) (w : World) :
  Parse (DotDagSource spec) = inl p →
  let '(run, trrs, err, w') := ExecuteRun Parse r ctx spec pipelineInput meta w in
  ∃ mu,
    w_heap w !! mu = None ∧ w_heap w' !! mu = Some ObjMutex ∧
    Forall (λ trr, ∃ t, t ∈ Tasks p ∧ primed r (orm_DB (orm r)) mu t (trr_Task trr)) trrs.
Proof.
  intros Hp.
  destruct (ExecuteRun_collects Parse r ctx spec pipelineInput meta w p Hp)
    as (tasks' & trrs & i & w' & -> & Hprimed & _ & _ & Hh & Hall).
  exists (length (w_heap w)). split_and!.
  - by apply lookup_ge_None_2.
  - rewrite Hh, lookup_app_r by lia. by rewrite Nat.sub_diag.
  - eapply Forall_impl; [exact Hall|]. intros trr [Hin _].
    apply list_elem_of_lookup in Hin as [k Hk].
    destruct (Forall2_lookup_r _ _ _ _ _ Hprimed Hk) as (t & Ht & Hpr).
    exists t. split; [|done]. apply list_elem_of_lookup. by exists k.
Qed.

Lemma priming_shares_mutex_witness :
  let '(run, trrs, err, w') :=
    ExecuteRun (sorter := insertionSliceSort) (exampleParse (inl {| Tasks := exampleTasks |}))
      (exampleRunner false) context_Background (exampleSpec 0) (anyInt 5)
      zeroJSONSerializable exampleWorld in
  ∃ mu,
    w_heap exampleWorld !! mu = None ∧ w_heap w' !! mu = Some ObjMutex ∧
    Forall (λ trr, ∃ t, t ∈ exampleTasks ∧
                        primed (exampleRunner false) (orm_DB (orm (exampleRunner false)))
                          mu t (trr_Task trr)) trrs.
Proof.
  exact (priming_shares_mutex (sorter := insertionSliceSort)
           (exampleParse (inl {| Tasks := exampleTasks |})) (exampleRunner false)
           context_Background (exampleSpec 0) (anyInt 5) zeroJSONSerializable
           {| Tasks := exampleTasks |} exampleWorld eq_refl).
Defined.

Example priming_shared_in_run :
  let '(run, trrs, err, w') :=
    ExecuteRun (sorter := insertionSliceSort) (exampleParse (inl {| Tasks := exampleTasks |}))
      (exampleRunner false) context_Background (exampleSpec 0) (anyInt 5)
      zeroJSONSerializable exampleWorld in
  (λ trr, (DotID (trr_Task trr), config (trr_Task trr), safeTx (trr_Task trr))) <$> trrs =
    [ ("fetch", Some 3%nat, None);
      ("bridge1", Some 3%nat, Some {| tx := 7%nat; txMu := 0%nat |});
      ("bridge2", Some 3%nat, Some {| tx := 7%nat; txMu := 0%nat |});
      ("parse", None, None) ] ∧
  w_heap w' = [ObjMutex; ObjTime 109] ∧
  run_Outputs run = {| Val := anySlice [anyInt 6]; Null := false |}.
Proof. vm_compute. done. Qed.

(** X8. When [ExecuteRun] and the insert both succeed,
    [ExecuteAndInsertFinishedRun] returns the id the ORM gave, no error,
    and the final result of the executed results; the outputs and errors
    of the run it handed to the ORM are the stored forms of that same
    final result. *)
Theorem inserted_run_matches_final_result {sorter : SliceSort}
    (Parse : string → Pipeline + error) (r : runner) (ctx : Context) (spec : Spec)
    (pipelineInput : any) (meta : JSONSerializable) (saveSuccessfulTaskRuns : bool)
    (w w1 w2 : World) (run : Run) (trrs : TaskRunResults) (runID : Z) :
  ExecuteRun Parse r ctx spec pipelineInput meta w = (run, trrs, None, w1) →
  orm_InsertFinishedRun (orm r) (orm_DB (orm r)) run trrs saveSuccessfulTaskRuns
    (traced w1 (EvInsert run (length trrs))) = (runID, None, w2) →
  ∃ finalResult,
    ExecuteAndInsertFinishedRun Parse r ctx spec pipelineInput meta
      saveSuccessfulTaskRuns w = (runID, finalResult, None, w2) ∧
    run_Outputs run = OutputsDB finalResult ∧
    run_Errors run = ErrorsDB finalResult.
Proof.
  intros Hrun Hins. exists (FinalResult_ trrs). split.
  - unfold ExecuteAndInsertFinishedRun. rewrite M_bind_eq, Hrun. cbn [fst snd].
    rewrite M_bind_eq. cbn [fst snd emit]. rewrite M_bind_eq.
    unfold traced in Hins. by rewrite Hins.
  - destruct (ExecuteRun_ok_parsed Parse r ctx spec pipelineInput meta w run trrs w1 Hrun)
      as [p Hp].
    destruct (ExecuteRun_success Parse r ctx spec pipelineInput meta w p Hp)
      as (trrs' & w2' & _ & Heq).
    rewrite Heq in Hrun. by injection Hrun as <- <- <-.
Qed.

Lemma inserted_run_matches_final_result_witness :
  ∃ finalResult,
    (ExecuteAndInsertFinishedRun (sorter := insertionSliceSort)
       (exampleParse (inl diamond)) (exampleRunner false) context_Background
       (exampleSpec 0) (anyInt 5) zeroJSONSerializable true exampleWorld).1
      = (1, finalResult, None) ∧
    finalResult = {| fr_Outputs := [anyInt 2]; fr_Errors := [None] |}.
Proof.
  edestruct (inserted_run_matches_final_result (sorter := insertionSliceSort)
               (exampleParse (inl diamond)) (exampleRunner false) context_Background
               (exampleSpec 0) (anyInt 5) zeroJSONSerializable true exampleWorld)
    as (finalResult & Heq & Hout & Herr);
    [vm_compute; reflexivity | vm_compute; reflexivity |].
  exists finalResult. rewrite Heq. split; [reflexivity|].
  apply (f_equal (λ x, x.1.1.2)) in Heq. simpl in Heq. rewrite <-Heq.
  vm_compute. reflexivity.
Defined.

(** ** The reaper loop *)

Section ReaperLoop.
Variable JobPipelineReaperInterval : Config → Duration.
Variable runReaperWorker_Stop : option error.

Lemma reaperSelect_stop n rest :
  reaperSelect (replicate n SelectTick ++ SelectStop :: rest) = (replicate n WakeUp, true).
Proof. induction n as [|n IH]; simpl; [done|]. by rewrite IH. Qed.

Lemma reaperSelect_blocked selections :
  SelectStop ∉ selections →
  reaperSelect selections = (replicate (length selections) WakeUp, false).
Proof.
  induction selections as [|[|] selections IH]; simpl; intros Hin; [done| |].
  - exfalso. apply Hin. left.
  - rewrite IH; [done|]. intros ?. apply Hin. by right.
Qed.

End ReaperLoop.

(** X9. With a positive reaper interval, [runReaperLoop] wakes the
    reaper once for every tick that fires before the stop signal and not
    again afterwards; when the stop signal fires it stops the ticker,
    then stops the reaper's worker (logging the error if that fails), and
    closes [chDone] last, once; as long as the stop signal has not fired
    it stops and closes nothing.  With an interval that is not positive,
    [time.NewTicker] panics: the reaper is never woken, no ticker is
    stopped, the worker is stopped and [chDone] closed by the deferred
    calls, and the panic leaves the goroutine. *)
Theorem reaper_loop_shutdown (JobPipelineReaperInterval : Config → Duration)
    (runReaperWorker_Stop : option error) (r : runner) :
  let interval := JobPipelineReaperInterval (runner_config r) in
  let stopped :=
    WorkerStop :: match runReaperWorker_Stop with Some err => [LogError err] | None => [] end
    ++ [CloseDone (chDone r)] in
  (0 < interval →
   ∀ n rest,
     runReaperLoop JobPipelineReaperInterval runReaperWorker_Stop r
       (replicate n SelectTick ++ SelectStop :: rest) =
       (NewTicker interval :: replicate n WakeUp ++ TickerStop :: stopped, None)) ∧
  (0 < interval →
   ∀ selections,
     SelectStop ∉ selections →
     runReaperLoop JobPipelineReaperInterval runReaperWorker_Stop r selections =
       (NewTicker interval :: replicate (length selections) WakeUp, None)) ∧
  (interval ≤ 0 →
   ∀ selections,
     runReaperLoop JobPipelineReaperInterval runReaperWorker_Stop r selections =
       (NewTicker interval :: stopped,
        Some (PanicRuntimeError "non-positive interval for NewTicker"))).
Proof.
  intros interval stopped. unfold runReaperLoop, destroy. fold interval. split_and!.
  - intros Hpos n rest. rewrite bool_decide_eq_false_2 by lia.
    by rewrite reaperSelect_stop.
  - intros Hpos selections Hin. rewrite bool_decide_eq_false_2 by lia.
    rewrite reaperSelect_blocked by done. by rewrite app_nil_r.
  - intros Hneg selections. by rewrite bool_decide_eq_true_2.
Qed.

Lemma reaper_loop_shutdown_witness :
  runReaperLoop (λ _, Hour) (Some (errors_New "already stopped")) (exampleRunner false)
    [SelectTick; SelectTick; SelectStop; SelectTick] =
    ([NewTicker Hour; WakeUp; WakeUp; TickerStop; WorkerStop;
      LogError (errors_New "already stopped"); CloseDone 1%nat], None) ∧
  runReaperLoop (λ _, Hour) None (exampleRunner false) [SelectTick; SelectTick] =
    ([NewTicker Hour; WakeUp; WakeUp], None) ∧
  runReaperLoop (λ _, 0) None (exampleRunner false) [SelectTick; SelectStop] =
    ([NewTicker 0; WorkerStop; CloseDone 1%nat],
     Some (PanicRuntimeError "non-positive interval for NewTicker")).
Proof.
  destruct (reaper_loop_shutdown (λ _, Hour) (Some (errors_New "already stopped"))
              (exampleRunner false)) as (H1 & _ & _).
  destruct (reaper_loop_shutdown (λ _, Hour) None (exampleRunner false)) as (_ & H2 & _).
  destruct (reaper_loop_shutdown (λ _, 0) None (exampleRunner false)) as (_ & _ & H3).
  split_and!.
  - exact (H1 eq_refl 2%nat [SelectTick]).
  - apply (H2 eq_refl [SelectTick; SelectTick]).
    intros Hin. by repeat (apply elem_of_cons in Hin as [?|Hin]; [done|]);
      apply elem_of_nil in Hin.
  - apply (H3 ltac:(done) [SelectTick; SelectStop]).
Defined.

(** ** Validation of webhook job specs *)

Section WebhookValidation.
Variables (Tree TaskDAG WebhookSpec JobRest : Type).
Variable NewTaskDAG : TaskDAG.
Variable zeroJobRest : JobRest.
Variable Webhook : string.
Variable toml_Load : string → Tree + error.
Variable Unmarshal_Job :
  Tree → Job TaskDAG WebhookSpec JobRest → Job TaskDAG WebhookSpec JobRest * option error.
Variable Unmarshal_WebhookSpec : Tree → WebhookSpec * option error.

Local Abbreviation Validate :=
  (ValidateWebhookSpec Tree TaskDAG WebhookSpec JobRest NewTaskDAG zeroJobRest Webhook
     toml_Load Unmarshal_Job Unmarshal_WebhookSpec).
Local Abbreviation newJob' := (newJob TaskDAG WebhookSpec JobRest NewTaskDAG zeroJobRest).

(** [ValidateWebhookSpec] once the TOML is loaded and unmarshalled. *)
Lemma Validate_unmarshalled tomlString tree jb :
  toml_Load tomlString = inl tree →
  Unmarshal_Job tree newJob' = (jb, None) →
  Validate tomlString =
    if bool_decide (jb_ExternalJobID jb = 0%N) then (jb, Some ErrMissingJobID)
    else if bool_decide (jb_Type jb ≠ Webhook) then
      (jb, Some (errors_New ("unsupported type " +:+ jb_Type jb)))
    else if bool_decide (jb_SchemaVersion jb ≠ 1%N) then
      (jb, Some (errors_New ("the only supported schema version is currently 1, got "
                             +:+ pretty (jb_SchemaVersion jb))))
    else match Unmarshal_WebhookSpec tree with
         | (_, Some err) => (jb, Some err)
         | (spec, None) =>
             ({| jb_Pipeline := jb_Pipeline jb; jb_ExternalJobID := jb_ExternalJobID jb;
                 jb_Type := jb_Type jb; jb_SchemaVersion := jb_SchemaVersion jb;
                 jb_WebhookSpec := Some spec; jb_rest := jb_rest jb |}, None)
         end.
Proof.
  intros Hl Hu. unfold ValidateWebhookSpec. rewrite Hl, Hu.
  repeat case_bool_decide; done.
Qed.

Lemma Validate_accepts tomlString jb :
  Validate tomlString = (jb, None) ↔
  ∃ tree jb0 spec,
    toml_Load tomlString = inl tree ∧
    Unmarshal_Job tree newJob' = (jb0, None) ∧
    jb_ExternalJobID jb0 ≠ 0%N ∧ jb_Type jb0 = Webhook ∧ jb_SchemaVersion jb0 = 1%N ∧
    Unmarshal_WebhookSpec tree = (spec, None) ∧
    jb = {| jb_Pipeline := jb_Pipeline jb0; jb_ExternalJobID := jb_ExternalJobID jb0;
            jb_Type := jb_Type jb0; jb_SchemaVersion := jb_SchemaVersion jb0;
            jb_WebhookSpec := Some spec; jb_rest := jb_rest jb0 |}.
Proof.
  split.
  - destruct (toml_Load tomlString) as [tree|err] eqn:Hl;
      [|unfold ValidateWebhookSpec; by rewrite Hl].
    destruct (Unmarshal_Job tree newJob') as [jb0 [err|]] eqn:Hu;
      [unfold ValidateWebhookSpec; by rewrite Hl, Hu|].
    rewrite (Validate_unmarshalled tomlString tree jb0 Hl Hu).
    repeat case_bool_decide; try done.
    destruct (Unmarshal_WebhookSpec tree) as [spec [err|]] eqn:Hs; [done|].
    intros [= <-]. by exists tree, jb0, spec.
  - intros (tree & jb0 & spec & Hl & Hu & Hid & Hty & Hv & Hs & ->).
    rewrite (Validate_unmarshalled tomlString tree jb0 Hl Hu), Hs.
    rewrite (bool_decide_eq_false_2 _ Hid).
    rewrite (bool_decide_eq_false_2 (jb_Type jb0 ≠ Webhook)) by auto.
    by rewrite (bool_decide_eq_false_2 (jb_SchemaVersion jb0 ≠ 1%N)) by auto.
Qed.

Lemma Validate_rejects tomlString jb err :
  Validate tomlString = (jb, Some err) →
  (toml_Load tomlString = inr err ∧ jb = newJob') ∨
  ∃ tree, toml_Load tomlString = inl tree ∧ jb = (Unmarshal_Job tree newJob').1.
Proof.
  destruct (toml_Load tomlString) as [tree|err'] eqn:Hl.
  - intros Hv. right. exists tree. split; [done|].
    destruct (Unmarshal_Job tree newJob') as [jb0 [err0|]] eqn:Hu.
    + unfold ValidateWebhookSpec in Hv. rewrite Hl, Hu in Hv. by injection Hv as <- _.
    + rewrite (Validate_unmarshalled tomlString tree jb0 Hl Hu) in Hv.
      repeat case_bool_decide; try by injection Hv as <- _.
      destruct (Unmarshal_WebhookSpec tree) as [spec [e|]]; [by injection Hv as <- _|done].
  - unfold ValidateWebhookSpec. rewrite Hl. intros [= <- <-]. by left.
Qed.

End WebhookValidation.

(** X10. [ValidateWebhookSpec] accepts a text exactly when it loads as
    TOML, unmarshals into a job with a non-zero external job id, the type
    [job.Webhook] and schema version 1, and unmarshals into a webhook
    spec; the job it then returns is the unmarshalled job with that
    webhook spec attached and nothing else changed. *)
Theorem webhook_spec_accepted_iff (Tree TaskDAG WebhookSpec JobRest : Type)
    (NewTaskDAG : TaskDAG) (zeroJobRest : JobRest) (Webhook : string)
    (toml_Load : string → Tree + error)
    (Unmarshal_Job : Tree → Job TaskDAG WebhookSpec JobRest →
                     Job TaskDAG WebhookSpec JobRest * option error)
    (Unmarshal_WebhookSpec : Tree → WebhookSpec * option error)
    (tomlString : string) (jb : Job TaskDAG WebhookSpec JobRest) :
  ValidateWebhookSpec Tree TaskDAG WebhookSpec JobRest NewTaskDAG zeroJobRest Webhook
    toml_Load Unmarshal_Job Unmarshal_WebhookSpec tomlString = (jb, None) ↔
  ∃ tree jb0 spec,
    toml_Load tomlString = inl tree ∧
    Unmarshal_Job tree (newJob TaskDAG WebhookSpec JobRest NewTaskDAG zeroJobRest)
      = (jb0, None) ∧
    jb_ExternalJobID jb0 ≠ 0%N ∧ jb_Type jb0 = Webhook ∧ jb_SchemaVersion jb0 = 1%N ∧
    Unmarshal_WebhookSpec tree = (spec, None) ∧
    jb = {| jb_Pipeline := jb_Pipeline jb0; jb_ExternalJobID := jb_ExternalJobID jb0;
            jb_Type := jb_Type jb0; jb_SchemaVersion := jb_SchemaVersion jb0;
            jb_WebhookSpec := Some spec; jb_rest := jb_rest jb0 |}.
Proof. apply Validate_accepts. Qed.

Example webhook_spec_accepted :
  exampleValidate "webhook, v1" =
    ({| jb_Pipeline := []; jb_ExternalJobID := 9; jb_Type := "webhook";
        jb_SchemaVersion := 1; jb_WebhookSpec := Some tt; jb_rest := tt |}, None).
Proof. vm_compute. reflexivity. Qed.

(** X11. The checks of [ValidateWebhookSpec] are made in a fixed order,
    and the first that fails decides the error: a missing external job id
    is reported as [ErrMissingJobID] whatever the type and the schema
    version; with an id, a type other than [job.Webhook] is reported, by
    its name, whatever the schema version; with an id and the right type,
    a schema version other than 1 is reported, by its number.  The job
    returned is the unmarshalled one. *)
Theorem webhook_spec_first_failure (Tree TaskDAG WebhookSpec JobRest : Type)
    (NewTaskDAG : TaskDAG) (zeroJobRest : JobRest) (Webhook : string)
    (toml_Load : string → Tree + error)
    (Unmarshal_Job : Tree → Job TaskDAG WebhookSpec JobRest →
                     Job TaskDAG WebhookSpec JobRest * option error)
    (Unmarshal_WebhookSpec : Tree → WebhookSpec * option error)
    (tomlString : string) (tree : Tree) (jb0 : Job TaskDAG WebhookSpec JobRest) :
  toml_Load tomlString = inl tree →
  Unmarshal_Job tree (newJob TaskDAG WebhookSpec JobRest NewTaskDAG zeroJobRest)
    = (jb0, None) →
  let validate :=
    ValidateWebhookSpec Tree TaskDAG WebhookSpec JobRest NewTaskDAG zeroJobRest Webhook
      toml_Load Unmarshal_Job Unmarshal_WebhookSpec in
  (jb_ExternalJobID jb0 = 0%N → validate tomlString = (jb0, Some ErrMissingJobID)) ∧
  (jb_ExternalJobID jb0 ≠ 0%N → jb_Type jb0 ≠ Webhook →
   validate tomlString = (jb0, Some (errors_New ("unsupported type " +:+ jb_Type jb0)))) ∧
  (jb_ExternalJobID jb0 ≠ 0%N → jb_Type jb0 = Webhook → jb_SchemaVersion jb0 ≠ 1%N →
   validate tomlString =
     (jb0, Some (errors_New ("the only supported schema version is currently 1, got "
                             +:+ pretty (jb_SchemaVersion jb0))))).
Proof.
  intros Hl Hu validate. unfold validate.
  rewrite (Validate_unmarshalled _ _ _ _ _ _ _ _ _ _ tomlString tree jb0 Hl Hu).
  split_and!.
  - intros Hid. by rewrite (bool_decide_eq_true_2 _ Hid).
  - intros Hid Hty. by rewrite (bool_decide_eq_false_2 _ Hid), (bool_decide_eq_true_2 _ Hty).
  - intros Hid Hty Hv. rewrite (bool_decide_eq_false_2 _ Hid).
    rewrite (bool_decide_eq_false_2 (jb_Type jb0 ≠ Webhook)) by auto.
    by rewrite (bool_decide_eq_true_2 _ Hv).
Qed.

Lemma webhook_spec_first_failure_witness :
  exampleValidate "no id, cron, v2" = (exampleJob 0 "cron" 2, Some ErrMissingJobID) ∧
  exampleValidate "cron, v2" =
    (exampleJob 9 "cron" 2, Some (errors_New "unsupported type cron")) ∧
  exampleValidate "webhook, v2" =
    (exampleJob 9 "webhook" 2,
     Some (errors_New "the only supported schema version is currently 1, got 2")).
Proof.
  split_and!.
  - apply (webhook_spec_first_failure string (list string) unit unit [] tt "webhook" _
             exampleUnmarshal (λ _, (tt, None)) "no id, cron, v2" "no id, cron, v2"
             (exampleJob 0 "cron" 2) eq_refl eq_refl).
    reflexivity.
  - apply (webhook_spec_first_failure string (list string) unit unit [] tt "webhook" _
             exampleUnmarshal (λ _, (tt, None)) "cron, v2" "cron, v2"
             (exampleJob 9 "cron" 2) eq_refl eq_refl); done.
  - apply (webhook_spec_first_failure string (list string) unit unit [] tt "webhook" _
             exampleUnmarshal (λ _, (tt, None)) "webhook, v2" "webhook, v2"
             (exampleJob 9 "webhook" 2) eq_refl eq_refl); done.
Defined.

(** X12. When [ValidateWebhookSpec] rejects a text, the job it returns
    beside the error is untouched by the validation: the new job with an
    empty DAG and the loader's own error when the text is not TOML,
    otherwise the job exactly as unmarshalling left it (no webhook spec
    is attached). *)
Theorem webhook_spec_rejected_job (Tree TaskDAG WebhookSpec JobRest : Type)
    (NewTaskDAG : TaskDAG) (zeroJobRest : JobRest) (Webhook : string)
    (toml_Load : string → Tree + error)
    (Unmarshal_Job : Tree → Job TaskDAG WebhookSpec JobRest →
                     Job TaskDAG WebhookSpec JobRest * option error)
    (Unmarshal_WebhookSpec : Tree → WebhookSpec * option error)
    (tomlString : string) (jb : Job TaskDAG WebhookSpec JobRest) (err : error) :
  ValidateWebhookSpec Tree TaskDAG WebhookSpec JobRest NewTaskDAG zeroJobRest Webhook
    toml_Load Unmarshal_Job Unmarshal_WebhookSpec tomlString = (jb, Some err) →
  (toml_Load tomlString = inr err ∧
   jb = newJob TaskDAG WebhookSpec JobRest NewTaskDAG zeroJobRest) ∨
  ∃ tree,
    toml_Load tomlString = inl tree ∧
    jb = (Unmarshal_Job tree (newJob TaskDAG WebhookSpec JobRest NewTaskDAG zeroJobRest)).1.
Proof. apply Validate_rejects. Qed.

Lemma webhook_spec_rejected_job_witness :
  ((if bool_decide ("" = "") then inr (errors_New "empty") else inl "")
     = (inr (errors_New "empty") : string + error) ∧
   exampleJob 0 "" 0 = newJob (list string) unit unit [] tt) ∨
  ∃ tree : string,
    (if bool_decide ("" = "") then inr (errors_New "empty") else inl "")
      = (inl tree : string + error) ∧
    exampleJob 0 "" 0 = (exampleUnmarshal tree (newJob (list string) unit unit [] tt)).1.
Proof.
  exact (webhook_spec_rejected_job string (list string) unit unit [] tt "webhook"
           (λ s, if bool_decide (s = "") then inr (errors_New "empty") else inl s)
           exampleUnmarshal (λ _, (tt, None)) "" (exampleJob 0 "" 0)
           (errors_New "empty") eq_refl).
Defined.

(** ** The order of events in a run *)

Section RunTrace.
Context {sorter : SliceSort}.
Variable Parse : string → Pipeline + error.

Lemma worker_trace r ctx spec meta m w :
  w_trace (worker r ctx spec meta m w).2 =
    w_trace w ++ [EvTaskRun (DotID (task m)) (passedContext r ctx spec m w).1
                    (inputsSorted m)].
Proof.
  rewrite worker_eq. pose proof (executeTaskRun_trace r ctx spec m meta w) as H.
  destruct (executeTaskRun r ctx spec m meta w) as [[res|v] w1]; exact H.
Qed.

Lemma dispatch_trace r ctx spec meta turns s w :
  ∃ calls,
    w_trace (dispatch turns (worker r ctx spec meta) s w).2 =
      w_trace w ++ (calls ≫= spawned) ∧
    (length calls ≤ turns)%nat.
Proof.
  revert s w. induction turns as [|turns IH]; intros s w.
  - exists []. simpl. by rewrite app_nil_r.
  - cbn [dispatch]. destruct (s_ready s) as [|t ready'].
    + exists []. simpl. split; [by rewrite app_nil_r|lia].
    + rewrite !M_bind_eq. cbv beta.
      match goal with |- context [dispatch turns _ ?s' ?w'] =>
        destruct (IH s' w') as (calls & Ht & Hl) end.
      eexists ((DotID t, _, _) :: calls). split; [|simpl; lia].
      rewrite Ht, worker_trace. simpl. by rewrite <-!app_assoc.
Qed.

Lemma executeRun_trace r ctx txdb spec pipelineInput meta w p :
  Parse (DotDagSource spec) = inl p →
  ∃ calls,
    w_trace (executeRun Parse r ctx txdb spec pipelineInput meta w).2 =
      w_trace w ++ ((λ t, EvInject (DotID t)) <$> List.filter needs_config (Tasks p)) ++
      [EvScheduler (length (Tasks p))] ++ (calls ≫= spawned) ∧
    (length calls ≤ length (Tasks p))%nat.
Proof.
  intros Hp. unfold executeRun. rewrite M_bind_eq, Hp, time_Now_eq. cbn [fst snd].
  repeat (rewrite M_bind_eq; cbv beta).
  pose proof (forM_inject_primed r txdb (alloc ObjMutex (tick w)).1 (Tasks p)
                (alloc ObjMutex (tick w)).2) as Hinj.
  destruct (forM _ (Tasks p) _) as [tasks w1]. cbn [fst snd] in *.
  destruct Hinj as (Hall & Htr & _ & _). apply Forall2_length in Hall.
  match goal with |- context [dispatch ?n _ ?s ?w0] =>
    destruct (dispatch_trace r ctx spec meta n s w0) as (calls & Ht & Hl) end.
  exists calls. split; [|simpl in Hl; lia].
  rewrite M_ret_eq. simpl in *. rewrite Ht. simpl. rewrite Htr, <-Hall.
  by rewrite <-!app_assoc.
Qed.

End RunTrace.

Lemma spawned_worker_events calls :
  Forall (λ e, worker_event e = true) (calls ≫= spawned).
Proof.
  induction calls as [|[[dotID c] ins] calls IH]; [constructor|].
  simpl. by repeat constructor.
Qed.

Lemma spawned_before_run calls pre dotID c ins post :
  calls ≫= spawned = pre ++ EvTaskRun dotID c ins :: post → EvSpawn dotID ∈ pre.
Proof.
  revert pre. induction calls as [|[[dotID0 c0] ins0] calls IH]; intros pre Heq.
  - by destruct pre.
  - simpl in Heq. destruct pre as [|e1 [|e2 pre']]; simplify_eq/=.
    + left.
    + right. right. by apply IH.
Qed.

(** X13. In a run whose DAG parses, every HTTP and bridge task is primed,
    in the DAG's order, before the scheduler is made, and the scheduler is
    made before any worker is started.  After that nothing is primed and
    no other scheduler is made: the remaining events are workers being
    started and calls of [Task.Run], and every call of [Task.Run] comes
    after the start of a worker for that task.  [ExecuteRun] records no
    sleep and no call of [InsertFinishedRun]. *)
Theorem run_events_in_order {sorter : SliceSort} (Parse : string → Pipeline + error)
    (r : runner) (ctx : Context) (spec : Spec) (pipelineInput : any)
    (meta : JSONSerializable) (p : Pipeline) (w : World) :
  Parse (DotDagSource spec) = inl p →
  ∃ rest,
    w_trace (ExecuteRun Parse r ctx spec pipelineInput meta w).2 =
      w_trace w ++ ((λ t, EvInject (DotID t)) <$> List.filter needs_config (Tasks p)) ++
      [EvScheduler (length (Tasks p))] ++ rest ∧
    Forall (λ e, worker_event e = true) rest ∧
    ∀ pre dotID c ins post,
      rest = pre ++ EvTaskRun dotID c ins :: post → EvSpawn dotID ∈ pre.
Proof.
  intros Hp. unfold ExecuteRun.
  rewrite ExecuteRun_with_no_retry by apply executeRun_retry.
  destruct (executeRun_trace Parse r ctx (orm_DB (orm r)) spec pipelineInput meta w p Hp)
    as (calls & Ht & Hl).
  exists (calls ≫= spawned). split_and!.
  - by destruct (executeRun _ _ _ _ _ _ _ _) as [[[[run trrs] retry] err] w'].
  - apply spawned_worker_events.
  - intros pre dotID c ins post. apply spawned_before_run.
Qed.

Lemma run_events_in_order_witness :
  ∃ rest,
    w_trace (ExecuteRun (sorter := insertionSliceSort)
               (exampleParse (inl {| Tasks := exampleTasks |}))
               (exampleRunner false) context_Background (exampleSpec 0) (anyInt 5)
               zeroJSONSerializable exampleWorld).2 =
      w_trace exampleWorld ++
      ((λ t, EvInject (DotID t)) <$> List.filter needs_config exampleTasks) ++
      [EvScheduler (length exampleTasks)] ++ rest ∧
    Forall (λ e, worker_event e = true) rest ∧
    ∀ pre dotID c ins post,
      rest = pre ++ EvTaskRun dotID c ins :: post → EvSpawn dotID ∈ pre.
Proof.
  exact (run_events_in_order (sorter := insertionSliceSort)
           (exampleParse (inl {| Tasks := exampleTasks |}))
           (exampleRunner false) context_Background (exampleSpec 0) (anyInt 5)
           zeroJSONSerializable {| Tasks := exampleTasks |} exampleWorld eq_refl).
Defined.

Example run_events_example :
  (λ e, match e with
        | EvSpawn id => "spawn " +:+ id
        | EvTaskRun id _ _ => "run " +:+ id
        | EvScheduler _ => "scheduler"
        | EvInject id => "inject " +:+ id
        | _ => "other"
        end) <$>
  w_trace (ExecuteRun (sorter := insertionSliceSort)
             (exampleParse (inl {| Tasks := exampleTasks |}))
             (exampleRunner false) context_Background (exampleSpec 0) (anyInt 5)
             zeroJSONSerializable exampleWorld).2
  = ["inject fetch"; "inject bridge1"; "inject bridge2"; "scheduler";
     "spawn fetch"; "run fetch"; "spawn bridge1"; "run bridge1";
     "spawn bridge2"; "run bridge2"; "spawn parse"; "run parse"].
Proof. vm_compute. reflexivity. Qed.

(** X14. When the task declares a timeout, or the spec's [MaxTaskDuration]
    is not zero, the caller's context plays no part in [executeTaskRun]:
    whatever context is passed in, the task is run with the same context
    and the result is the same.  A deadline or cancellation of the
    caller's is not inherited. *)
Theorem caller_context_dropped {sorter : SliceSort} (r : runner) (ctx1 ctx2 : Context)
    (spec : Spec) (m : memoryTaskRun) (meta : JSONSerializable) (w : World) :
  (TaskTimeout (task m)).2 || bool_decide (MaxTaskDuration spec ≠ 0) = true →
  executeTaskRun r ctx1 spec m meta w = executeTaskRun r ctx2 spec m meta w.
Proof.
  intros Hset. rewrite !executeTaskRun_eq. unfold passedContext.
  rewrite !taskContext_eq.
  destruct (TaskTimeout (task m)) as [d [|]]; simpl in *; [done|].
  apply bool_decide_eq_true in Hset. by destruct (decide _).
Qed.

Lemma caller_context_dropped_witness :
  let m := {| task := intTask "t" (Hour, true) [] (λ _, ok 0); inputs := []; vars := [] |} in
  executeTaskRun (sorter := insertionSliceSort) (exampleRunner false) cancelledContext
    (exampleSpec 0) m zeroJSONSerializable exampleWorld =
  executeTaskRun (sorter := insertionSliceSort) (exampleRunner false) context_Background
    (exampleSpec 0) m zeroJSONSerializable exampleWorld.
Proof.
  intros m.
  exact (caller_context_dropped (sorter := insertionSliceSort) (exampleRunner false)
           cancelledContext context_Background (exampleSpec 0) m zeroJSONSerializable
           exampleWorld eq_refl).
Defined.

Example caller_deadline_overridden :
  let m := {| task := intTask "t" (Hour, true) [] (λ _, ok 0); inputs := []; vars := [] |} in
  w_trace (executeTaskRun (sorter := insertionSliceSort) (exampleRunner false)
             cancelledContext (exampleSpec 0) m zeroJSONSerializable exampleWorld).2
  = [EvTaskRun "t" {| ctx_deadline := Some (101 + Hour); ctx_done := [0%nat] |} []].
Proof. vm_compute. reflexivity. Qed.
